(** * The Vapi chat widget: streaming parser, consent gate and toggle events

    A shallow embedding of [src/vapi-custom-widget.js] (the self-hosted
    custom element [VapiCustomWidget]) and of the [init] path of the
    attribute-driven loader, together with the properties stated about them.

    JavaScript strings are sequences of UTF-16 code units; they are modelled
    as [list N].  The host functions the widget calls ([String.prototype.trim],
    [split], [startsWith], [slice], [JSON.parse], [localStorage]) are modelled
    next to the code that uses them. *)

From Stdlib Require Import NArith Ascii String Lia.
From stdpp Require Import base list strings gmap.

Set Warnings "-register-all".
Open Scope N_scope.

(** ** JavaScript strings *)

Abbreviation jsstring := (list N).

(** A string literal of the source, as code units. *)
Definition lit (s : string) : jsstring :=
  map N_of_ascii (list_ascii_of_string s).

(** Test inputs are written with an apostrophe standing for the double
    quote: [payload "{'a':1}"] is the text [{"a":1}]. *)
Definition payload (s : string) : jsstring :=
  map (fun c => if c =? 39 then 34 else c) (lit s).

Definition jsstring_eqb (a b : jsstring) : bool := bool_decide (a = b).

(** [s.startsWith(p)] *)
Fixpoint startsWith (p s : jsstring) : bool :=
  match p, s with
  | [], _ => true
  | _ :: _, [] => false
  | a :: p', b :: s' => (a =? b) && startsWith p' s'
  end.

(** [s.slice(n)] for a non-negative literal [n]. *)
Definition slice (n : nat) (s : jsstring) : jsstring := drop n s.

(** [s.split('\n')]: the pieces between line feeds; never the empty list. *)
Fixpoint split_lines (s : jsstring) : list jsstring :=
  match s with
  | [] => [[]]
  | c :: r =>
      if c =? 10 then [] :: split_lines r
      else match split_lines r with
           | h :: t => (c :: h) :: t
           | [] => [[c]]
           end
  end.

(** White space and line terminators of ECMAScript, as removed by [trim]. *)
Definition is_js_space (c : N) : bool :=
  ((9 <=? c) && (c <=? 13)) || (c =? 32) || (c =? 160) || (c =? 5760)
  || ((8192 <=? c) && (c <=? 8202)) || (c =? 8232) || (c =? 8233)
  || (c =? 8239) || (c =? 8287) || (c =? 12288) || (c =? 65279).

Fixpoint trim_start (s : jsstring) : jsstring :=
  match s with
  | c :: r => if is_js_space c then trim_start r else s
  | [] => []
  end.

(** [s.trim()] *)
Definition trim (s : jsstring) : jsstring :=
  rev (trim_start (rev (trim_start s))).

(** Truthiness of a string: non-empty. *)
Definition nonempty (s : jsstring) : bool :=
  match s with [] => false | _ :: _ => true end.

(** ** JSON values and [JSON.parse] *)

(** A number keeps its literal; what the host makes of it (the double it
    denotes) is only needed through [NumberHost] below. *)
Inductive JsValue :=
| JNull
| JBool (b : bool)
| JNum (literal : jsstring)
| JStr (s : jsstring)
| JArr (items : list JsValue)
| JObj (members : list (jsstring * JsValue)).

(** [JSON.parse] is a host function.  It is modelled as the pushdown
    automaton of the JSON grammar (ECMA-404), reading one code unit at a
    time: no fuel, total on every input. *)
Module Json.

Inductive NumState :=
| NMinus | NZero | NInt | NDot | NFrac | NExp | NExpSign | NExpDigits.

Inductive Literal := LTrue | LFalse | LNull.

Inductive Mode :=
| MValue (first : bool)
| MKey (first : bool)
| MColon
| MAfter
| MStr (key : bool) (acc : jsstring)
| MEsc (key : bool) (acc : jsstring)
| MHex (key : bool) (acc : jsstring) (todo : nat) (code : N)
| MNum (ns : NumState) (acc : jsstring)
| MLit (l : Literal) (pos : nat).

Inductive Frame :=
| FArr (done : list JsValue)
| FObj (done : list (jsstring * JsValue)) (key : option jsstring).

Record PState := mkPState {
  mode : Mode;
  stack : list Frame;
  result : option JsValue
}.

Definition init : PState := mkPState (MValue false) [] None.

Definition is_ws (c : N) : bool :=
  (c =? 32) || (c =? 9) || (c =? 10) || (c =? 13).

Definition is_digit (c : N) : bool := (48 <=? c) && (c <=? 57).

Definition hex_value (c : N) : option N :=
  if (48 <=? c) && (c <=? 57) then Some (c - 48)
  else if (97 <=? c) && (c <=? 102) then Some (c - 87)
  else if (65 <=? c) && (c <=? 70) then Some (c - 55)
  else None.

Definition literal_text (l : Literal) : jsstring :=
  match l with
  | LTrue => lit "true"
  | LFalse => lit "false"
  | LNull => lit "null"
  end.

Definition literal_value (l : Literal) : JsValue :=
  match l with
  | LTrue => JBool true
  | LFalse => JBool false
  | LNull => JNull
  end.

Definition num_accepting (ns : NumState) : bool :=
  match ns with
  | NZero | NInt | NFrac | NExpDigits => true
  | _ => false
  end.

Definition num_step (ns : NumState) (c : N) : option NumState :=
  match ns with
  | NMinus =>
      if c =? 48 then Some NZero
      else if is_digit c then Some NInt else None
  | NZero =>
      if c =? 46 then Some NDot
      else if (c =? 101) || (c =? 69) then Some NExp else None
  | NInt =>
      if is_digit c then Some NInt
      else if c =? 46 then Some NDot
      else if (c =? 101) || (c =? 69) then Some NExp else None
  | NDot => if is_digit c then Some NFrac else None
  | NFrac =>
      if is_digit c then Some NFrac
      else if (c =? 101) || (c =? 69) then Some NExp else None
  | NExp =>
      if (c =? 43) || (c =? 45) then Some NExpSign
      else if is_digit c then Some NExpDigits else None
  | NExpSign => if is_digit c then Some NExpDigits else None
  | NExpDigits => if is_digit c then Some NExpDigits else None
  end.

(** A value is complete: it is the result, or goes into the container
    on top of the stack. *)
Definition complete (v : JsValue) (st : list Frame) : option PState :=
  match st with
  | [] => Some (mkPState MAfter [] (Some v))
  | FArr done :: st' => Some (mkPState MAfter (FArr (v :: done) :: st') None)
  | FObj done (Some k) :: st' =>
      Some (mkPState MAfter (FObj ((k, v) :: done) None :: st') None)
  | FObj _ None :: _ => None
  end.

Definition step_after (st : list Frame) (res : option JsValue) (c : N)
  : option PState :=
  if is_ws c then Some (mkPState MAfter st res)
  else if c =? 44 then
    match st with
    | FArr _ :: _ => Some (mkPState (MValue false) st None)
    | FObj _ None :: _ => Some (mkPState (MKey false) st None)
    | _ => None
    end
  else if c =? 93 then
    match st with
    | FArr done :: st' => complete (JArr (rev done)) st'
    | _ => None
    end
  else if c =? 125 then
    match st with
    | FObj done None :: st' => complete (JObj (rev done)) st'
    | _ => None
    end
  else None.

Definition step_value (first : bool) (st : list Frame) (c : N)
  : option PState :=
  if is_ws c then Some (mkPState (MValue first) st None)
  else if c =? 123 then Some (mkPState (MKey true) (FObj [] None :: st) None)
  else if c =? 91 then Some (mkPState (MValue true) (FArr [] :: st) None)
  else if c =? 34 then Some (mkPState (MStr false []) st None)
  else if c =? 45 then Some (mkPState (MNum NMinus [c]) st None)
  else if c =? 48 then Some (mkPState (MNum NZero [c]) st None)
  else if is_digit c then Some (mkPState (MNum NInt [c]) st None)
  else if c =? 116 then Some (mkPState (MLit LTrue 1) st None)
  else if c =? 102 then Some (mkPState (MLit LFalse 1) st None)
  else if c =? 110 then Some (mkPState (MLit LNull 1) st None)
  else if (c =? 93) && first then
    match st with
    | FArr [] :: st' => complete (JArr []) st'
    | _ => None
    end
  else None.

Definition step_key (first : bool) (st : list Frame) (c : N)
  : option PState :=
  if is_ws c then Some (mkPState (MKey first) st None)
  else if c =? 34 then Some (mkPState (MStr true []) st None)
  else if (c =? 125) && first then
    match st with
    | FObj [] None :: st' => complete (JObj []) st'
    | _ => None
    end
  else None.

Definition end_string (key : bool) (acc : jsstring) (st : list Frame)
  : option PState :=
  if key then
    match st with
    | FObj done None :: st' =>
        Some (mkPState MColon (FObj done (Some (rev acc)) :: st') None)
    | _ => None
    end
  else complete (JStr (rev acc)) st.

Definition escape_value (c : N) : option N :=
  if c =? 34 then Some 34
  else if c =? 92 then Some 92
  else if c =? 47 then Some 47
  else if c =? 98 then Some 8
  else if c =? 102 then Some 12
  else if c =? 110 then Some 10
  else if c =? 114 then Some 13
  else if c =? 116 then Some 9
  else None.

Definition step (s : PState) (c : N) : option PState :=
  let st := stack s in
  match mode s with
  | MValue first => step_value first st c
  | MKey first => step_key first st c
  | MColon =>
      if is_ws c then Some (mkPState MColon st None)
      else if c =? 58 then Some (mkPState (MValue false) st None)
      else None
  | MAfter => step_after st (result s) c
  | MStr key acc =>
      if c =? 34 then end_string key acc st
      else if c =? 92 then Some (mkPState (MEsc key acc) st None)
      else if c <? 32 then None
      else Some (mkPState (MStr key (c :: acc)) st None)
  | MEsc key acc =>
      if c =? 117 then Some (mkPState (MHex key acc 4 0) st None)
      else match escape_value c with
           | Some x => Some (mkPState (MStr key (x :: acc)) st None)
           | None => None
           end
  | MHex key acc todo code =>
      match hex_value c with
      | Some d =>
          let code' := code * 16 + d in
          match todo with
          | 1%nat => Some (mkPState (MStr key (code' :: acc)) st None)
          | _ => Some (mkPState (MHex key acc (pred todo) code') st None)
          end
      | None => None
      end
  | MNum ns acc =>
      match num_step ns c with
      | Some ns' => Some (mkPState (MNum ns' (c :: acc)) st None)
      | None =>
          if num_accepting ns then
            match complete (JNum (rev acc)) st with
            | Some s' => step_after (stack s') (result s') c
            | None => None
            end
          else None
      end
  | MLit l pos =>
      match literal_text l !! pos with
      | Some x =>
          if c =? x then
            if (S pos =? length (literal_text l))%nat
            then complete (literal_value l) st
            else Some (mkPState (MLit l (S pos)) st None)
          else None
      | None => None
      end
  end.

Fixpoint run (s : PState) (text : jsstring) : option PState :=
  match text with
  | [] => Some s
  | c :: r =>
      match step s c with
      | Some s' => run s' r
      | None => None
      end
  end.

(** At the end of the text: a complete top-level value, or a number
    that the end of the text terminates. *)
Definition finish (s : PState) : option JsValue :=
  match mode s, stack s with
  | MAfter, [] => result s
  | MNum ns acc, [] =>
      if num_accepting ns then Some (JNum (rev acc)) else None
  | _, _ => None
  end.

(** [JSON.parse(text)]; [None] where the host throws a SyntaxError. *)
Definition parse (text : jsstring) : option JsValue :=
  match run init text with
  | Some s => finish s
  | None => None
  end.

(** Lexical position of a state: inside a string (not inside an escape),
    or outside every string. *)
Definition in_string (s : PState) : bool :=
  match mode s with MStr _ _ => true | _ => false end.

Definition outside (s : PState) : bool :=
  match mode s with
  | MStr _ _ | MEsc _ _ | MHex _ _ _ _ => false
  | _ => true
  end.

(** A state in which the top-level value is complete, or is a number still
    being read. *)
Definition terminal (s : PState) : bool :=
  match stack s, mode s with
  | [], MAfter | [], MNum _ _ => true
  | _, _ => false
  end.

End Json.

Definition JSON_parse : jsstring -> option JsValue := Json.parse.

(** ** Values as the widget reads them *)

(** What the host makes of a number literal: [ToBoolean] and [ToString] of
    the double it denotes.  Doubles are not modelled; the two coercions are
    an interface of the host. *)
Class NumberHost := {
  number_truthy : jsstring -> bool;
  number_toString : jsstring -> jsstring
}.

(** [obj.k] on an object made by [JSON.parse]: with a repeated name the last
    member wins. *)
Definition get_member (k : jsstring) (ms : list (jsstring * JsValue))
  : option JsValue :=
  fold_left (fun acc m => if jsstring_eqb (fst m) k then Some (snd m) else acc)
            ms None.

(** The outcome of [data.k]: [None] where it throws (on [null]), otherwise
    [Some None] for [undefined] or [Some (Some v)]. *)
Definition property (data : JsValue) (k : jsstring)
  : option (option JsValue) :=
  match data with
  | JNull => None
  | JObj ms => Some (get_member k ms)
  | _ => Some None
  end.

Section Coercions.
Context `{NumberHost}.

(** [ToBoolean] *)
Definition truthy (v : JsValue) : bool :=
  match v with
  | JNull => false
  | JBool b => b
  | JNum l => number_truthy l
  | JStr s => nonempty s
  | JArr _ | JObj _ => true
  end.

(** [ToString], as applied by [fullContent += data.delta]. *)
Fixpoint to_string (v : JsValue) : jsstring :=
  match v with
  | JNull => lit "null"
  | JBool true => lit "true"
  | JBool false => lit "false"
  | JNum l => number_toString l
  | JStr s => s
  | JArr items =>
      (fix join (l : list JsValue) : jsstring :=
         match l with
         | [] => []
         | x :: r =>
             (match x with JNull => [] | _ => to_string x end)
             ++ match r with [] => [] | _ :: _ => 44 :: join r end
         end) items
  | JObj _ => lit "[object Object]"
  end.
End Coercions.

(** ** The widget's data *)

Inductive Role := user | assistant.

Record Message := mkMessage { role : Role; content : jsstring }.

(** The thrown values the widget can catch in [sendMessage]. *)
Inductive Failure :=
| ApiError (status : N)
| FetchRejected
| ReadRejected.

Inductive WidgetEvent :=
| chat_open
| chat_close
| message_event (detail : Message)
| error_event (detail : Failure).

(** The body of [POST https://api.vapi.ai/chat]. *)
Record Payload := mkPayload {
  p_assistantId : option jsstring;
  p_input : jsstring;
  p_stream : bool;
  p_previousChatId : option JsValue;
  p_assistantOverrides : option JsValue
}.

(** [bearer] is the public key interpolated into the [Authorization]
    header. *)
Record Request := mkRequest {
  bearer : option jsstring;
  request_body : Payload
}.

Inductive Effect :=
| console_error (what : string)
| console_warn (what : string)
| dispatchEvent (e : WidgetEvent)
| fetch (r : Request)
| focus_input_later.

(** How the awaited request ends: [fetch] rejects, the status is not ok, or
    the body arrives as decoded chunks; [finished = false] when a read
    rejects after them.  A chunk is the text [decoder.decode(value)]. *)
Inductive FetchOutcome :=
| fetch_rejects
| http_error (status : N)
| http_ok (chunks : list jsstring) (finished : bool).

(** [localStorage]: access throws where storage is unavailable; a write
    throws as well when the quota is exhausted. *)
Inductive Storage :=
| storage_unavailable
| storage_items (items : gmap jsstring jsstring) (quota_exceeded : bool).

Definition getItem (st : Storage) (k : jsstring) : option (option jsstring) :=
  match st with
  | storage_unavailable => None
  | storage_items items _ => Some (items !! k)
  end.

Definition setItem (st : Storage) (k v : jsstring) : option Storage :=
  match st with
  | storage_unavailable => None
  | storage_items items true => None
  | storage_items items false => Some (storage_items (<[k := v]> items) false)
  end.

(** The shadow tree that [render] writes, as far as the code queries it. *)
Record ChatArea := mkChatArea {
  empty_state : option jsstring;
  bubbles : list Message;
  typing_indicator : bool;
  streaming : option jsstring;
  input_value : jsstring;
  input_disabled : bool
}.

Inductive Body :=
| consent_screen (terms : jsstring)
| chat_area (c : ChatArea).

Record Dom := mkDom {
  window_open : bool;
  header_logo : option jsstring;
  header_title : jsstring;
  body : Body;
  footer_text : option jsstring
}.

Record Widget := mkWidget {
  attributes : gmap string jsstring;
  isOpen : bool;
  messages : list Message;
  isLoading : bool;
  previousChatId : JsValue;
  consentGiven : bool;
  shadowRoot : option Dom
}.

(** The constructor. *)
Definition new_widget (attrs : gmap string jsstring) : Widget :=
  mkWidget attrs false [] false JNull false None.

Definition set_attributes (a : gmap string jsstring) (w : Widget) : Widget :=
  mkWidget a (isOpen w) (messages w) (isLoading w) (previousChatId w)
           (consentGiven w) (shadowRoot w).
Definition set_isOpen (b : bool) (w : Widget) : Widget :=
  mkWidget (attributes w) b (messages w) (isLoading w) (previousChatId w)
           (consentGiven w) (shadowRoot w).
Definition set_messages (m : list Message) (w : Widget) : Widget :=
  mkWidget (attributes w) (isOpen w) m (isLoading w) (previousChatId w)
           (consentGiven w) (shadowRoot w).
Definition set_isLoading (b : bool) (w : Widget) : Widget :=
  mkWidget (attributes w) (isOpen w) (messages w) b (previousChatId w)
           (consentGiven w) (shadowRoot w).
Definition set_previousChatId (v : JsValue) (w : Widget) : Widget :=
  mkWidget (attributes w) (isOpen w) (messages w) (isLoading w) v
           (consentGiven w) (shadowRoot w).
Definition set_consentGiven (b : bool) (w : Widget) : Widget :=
  mkWidget (attributes w) (isOpen w) (messages w) (isLoading w)
           (previousChatId w) b (shadowRoot w).
Definition set_shadowRoot (d : option Dom) (w : Widget) : Widget :=
  mkWidget (attributes w) (isOpen w) (messages w) (isLoading w)
           (previousChatId w) (consentGiven w) d.

(** ** Configuration *)

Record Config := mkConfig {
  publicKey : option jsstring;
  assistantId : option jsstring;
  assistantOverrides : option jsstring;
  theme : jsstring;
  position : jsstring;
  size : jsstring;
  radius : jsstring;
  baseColor : option jsstring;
  accentColor : jsstring;
  buttonBaseColor : jsstring;
  buttonAccentColor : jsstring;
  mainLabel : jsstring;
  emptyChatMessage : jsstring;
  header : option jsstring;
  footer : option jsstring;
  logo : option jsstring;
  requireConsent : bool;
  termsContent : jsstring;
  localStorageKey : jsstring
}.

(** [this.getAttribute(name) || null] *)
Definition getAttr (w : Widget) (name : string) : option jsstring :=
  match attributes w !! name with
  | Some v => if nonempty v then Some v else None
  | None => None
  end.

(** [this.getAttribute(name) || defaultValue] with a string default. *)
Definition getAttrOr (w : Widget) (name : string) (defaultValue : jsstring)
  : jsstring :=
  match getAttr w name with Some v => v | None => defaultValue end.

(** [this.hasAttribute(name) && this.getAttribute(name) !== 'false'] *)
Definition getBoolAttr (w : Widget) (name : string) : bool :=
  match attributes w !! name with
  | Some v => negb (jsstring_eqb v (lit "false"))
  | None => false
  end.

Definition getConfig (w : Widget) : Config :=
  {| publicKey := getAttr w "public-key";
     assistantId := getAttr w "assistant-id";
     assistantOverrides := getAttr w "assistant-overrides";
     theme := getAttrOr w "theme" (lit "light");
     position := getAttrOr w "position" (lit "bottom-right");
     size := getAttrOr w "size" (lit "full");
     radius := getAttrOr w "radius" (lit "medium");
     baseColor := getAttr w "base-color";
     accentColor := getAttrOr w "accent-color" (lit "#14B8A6");
     buttonBaseColor := getAttrOr w "button-base-color" (lit "#000000");
     buttonAccentColor := getAttrOr w "button-accent-color" (lit "#FFFFFF");
     mainLabel := getAttrOr w "main-label" (lit "Chat with AI");
     emptyChatMessage :=
       getAttrOr w "empty-chat-message" (lit "Hi! How can I help you today?");
     header := getAttr w "header";
     footer := getAttr w "footer";
     logo := getAttr w "logo";
     requireConsent := getBoolAttr w "require-consent";
     termsContent :=
       getAttrOr w "terms-content"
         (lit "By using this chat, you agree to our terms of service.");
     localStorageKey := getAttrOr w "local-storage-key" (lit "vapi_widget_consent")
  |}.

(** ** Consent *)

(** [checkConsent()] *)
Definition checkConsent (w : Widget) (st : Storage) : Widget :=
  let config := getConfig w in
  if negb (requireConsent config) then set_consentGiven true w
  else
    match getItem st (localStorageKey config) with
    | Some v => set_consentGiven (bool_decide (v = Some (lit "true"))) w
    | None => set_consentGiven false w
    end.

(** ** Rendering *)

(** [renderChatArea(config)]: a fresh message list and an empty input. *)
Definition renderChatArea (w : Widget) (config : Config) : Body :=
  chat_area
    {| empty_state :=
         match messages w with
         | [] => Some (emptyChatMessage config)
         | _ :: _ => None
         end;
       bubbles := messages w;
       typing_indicator := isLoading w;
       streaming := None;
       input_value := [];
       input_disabled := isLoading w |}.

(** [renderConsentScreen(config)] *)
Definition renderConsentScreen (config : Config) : Body :=
  consent_screen (termsContent config).

(** [render()]: the whole shadow tree is rewritten from the state. *)
Definition render (w : Widget) : Widget :=
  let config := getConfig w in
  let headerText :=
    match header config with Some h => h | None => mainLabel config end in
  set_shadowRoot
    (Some {| window_open := isOpen w;
             header_logo := logo config;
             header_title := headerText;
             body := if requireConsent config && negb (consentGiven w)
                     then renderConsentScreen config
                     else renderChatArea w config;
             footer_text := footer config |})
    w.

(** [giveConsent()] *)
Definition giveConsent (w : Widget) (st : Storage)
  : Widget * Storage * list Effect :=
  let config := getConfig w in
  let w1 := set_consentGiven true w in
  match setItem st (localStorageKey config) (lit "true") with
  | Some st' => (render w1, st', [])
  | None =>
      (render w1, st, [console_warn "Could not save consent to localStorage"])
  end.

(** [connectedCallback()]: the first render precedes the consent check. *)
Definition connectedCallback (w : Widget) (st : Storage) : Widget :=
  checkConsent (render w) st.

(** ** Attribute changes *)

Definition observedAttributes : list string :=
  ["public-key"; "assistant-id"; "assistant-overrides";
   "theme"; "position"; "size"; "radius";
   "base-color"; "accent-color"; "button-base-color"; "button-accent-color";
   "main-label"; "empty-chat-message";
   "header"; "footer"; "logo";
   "require-consent"; "terms-content"; "local-storage-key"].

(** [attributeChangedCallback(name, oldValue, newValue)] *)
Definition attributeChangedCallback (oldValue newValue : option jsstring)
  (w : Widget) : Widget :=
  if bool_decide (oldValue <> newValue) then render w else w.

(** [element.setAttribute(name, value)] by the page: the callback runs for
    an observed name. *)
Definition setAttribute (name : string) (value : jsstring) (w : Widget)
  : Widget :=
  let w' := set_attributes (<[name := value]> (attributes w)) w in
  if bool_decide (name ∈ observedAttributes)
  then attributeChangedCallback (attributes w !! name) (Some value) w'
  else w'.

(** [element.removeAttribute(name)] by the page. *)
Definition removeAttribute (name : string) (w : Widget) : Widget :=
  let w' := set_attributes (delete name (attributes w)) w in
  if bool_decide (name ∈ observedAttributes)
  then attributeChangedCallback (attributes w !! name) None w'
  else w'.

(** ** Open and close *)

(** [toggleChat(state = null)] *)
Definition toggleChat (state : option bool) (w : Widget)
  : Widget * list Effect :=
  let w1 :=
    set_isOpen (match state with Some b => b | None => negb (isOpen w) end) w in
  let w2 := render w1 in
  (w2,
   dispatchEvent (if isOpen w2 then chat_open else chat_close)
   :: (if isOpen w2 then [focus_input_later] else [])).

(** ** Queries on the shadow tree *)

(** [this.shadowRoot.querySelector('.chat-input')], as its value. *)
Definition chat_input (w : Widget) : option jsstring :=
  match shadowRoot w with
  | Some d =>
      match body d with
      | chat_area c => Some (input_value c)
      | consent_screen _ => None
      end
  | None => None
  end.

(** The user (or a script) sets the value of the input, where it exists. *)
Definition set_input (text : jsstring) (w : Widget) : Widget :=
  match shadowRoot w with
  | Some d =>
      match body d with
      | chat_area c =>
          set_shadowRoot
            (Some (mkDom (window_open d) (header_logo d) (header_title d)
                     (chat_area
                        (mkChatArea (empty_state c) (bubbles c)
                           (typing_indicator c) (streaming c) text
                           (input_disabled c)))
                     (footer_text d)))
            w
      | consent_screen _ => w
      end
  | None => w
  end.

(** [updateStreamingMessage(content)]: written into the tree directly, not
    through [render]. *)
Definition updateStreamingMessage (content : jsstring) (w : Widget) : Widget :=
  match shadowRoot w with
  | Some d =>
      match body d with
      | chat_area c =>
          set_shadowRoot
            (Some (mkDom (window_open d) (header_logo d) (header_title d)
                     (chat_area
                        (mkChatArea (empty_state c) (bubbles c) false
                           (Some content) (input_value c) (input_disabled c)))
                     (footer_text d)))
            w
      | consent_screen _ => w
      end
  | None => w
  end.

(** ** The streaming response handler *)

(** The locals of [callVapiAPI] while it reads the body. *)
Record Stream := mkStream {
  fullContent : jsstring;
  chatId : JsValue
}.

Definition stream_start : Stream := mkStream [] JNull.

Section Streaming.
Context `{NumberHost}.

(** The body of [for (const line of lines)]: one line of a chunk. *)
Definition process_line (ws : Widget * Stream) (line : jsstring)
  : Widget * Stream :=
  let (w, s) := ws in
  if startsWith (lit "data: ") line then
    match JSON_parse (slice 6 line) with
    | None => ws
    | Some data =>
        match property data (lit "id"), property data (lit "delta") with
        | Some id, Some delta =>
            let chatId' :=
              match id with
              | Some v => if truthy v && negb (truthy (chatId s))
                          then v else chatId s
              | None => chatId s
              end in
            match delta with
            | Some d =>
                if truthy d then
                  let fullContent' := fullContent s ++ to_string d in
                  (updateStreamingMessage fullContent' w,
                   mkStream fullContent' chatId')
                else (w, mkStream (fullContent s) chatId')
            | None => (w, mkStream (fullContent s) chatId')
            end
        | _, _ => ws
        end
    end
  else ws.

(** [chunk.split('\n').filter(line => line.trim())] *)
Definition chunk_lines (chunk : jsstring) : list jsstring :=
  filter (fun line => nonempty (trim line) = true) (split_lines chunk).

(** One turn of [while (true)] with [done] false. *)
Definition process_chunk (ws : Widget * Stream) (chunk : jsstring)
  : Widget * Stream :=
  fold_left process_line (chunk_lines chunk) ws.

(** The whole loop, over the chunks the reader yields. *)
Definition read_stream (w : Widget) (chunks : list jsstring)
  : Widget * Stream :=
  fold_left process_chunk chunks (w, stream_start).

(** [callVapiAPI(message, config)] up to [await fetch(...)]. *)
Definition callVapiAPI_request (w : Widget) (message : jsstring)
  (config : Config) : list Effect :=
  let overrides :=
    match assistantOverrides config with
    | Some text => Some (JSON_parse text)
    | None => None
    end in
  let payload :=
    {| p_assistantId := assistantId config;
       p_input := message;
       p_stream := true;
       p_previousChatId :=
         if truthy (previousChatId w) then Some (previousChatId w) else None;
       p_assistantOverrides :=
         match overrides with Some (Some v) => Some v | _ => None end |} in
  match overrides with
  | Some None => [console_warn "Invalid assistant-overrides JSON"]
  | _ => []
  end ++ [fetch (mkRequest (publicKey config) payload)].

(** [callVapiAPI] from the response on: the returned
    [{ content, chatId }], or the thrown value. *)
Definition callVapiAPI_response (w : Widget) (o : FetchOutcome)
  : Widget * (Failure + Stream) :=
  match o with
  | fetch_rejects => (w, inl FetchRejected)
  | http_error status => (w, inl (ApiError status))
  | http_ok chunks finished =>
      let (w', s) := read_stream w chunks in
      if finished then (w', inr s) else (w', inl ReadRejected)
  end.

(** What [sendMessage] does before it suspends on the request. *)
Inductive SendStart :=
| send_returns (w : Widget) (effects : list Effect)
| send_awaits (w : Widget) (effects : list Effect).

(** [sendMessage()] up to the first suspension. *)
Definition sendMessage_start (w : Widget) : SendStart :=
  match chat_input w with
  | None => send_returns w []
  | Some value =>
      let message := trim value in
      if negb (nonempty message) || isLoading w then send_returns w []
      else
        let config := getConfig w in
        match publicKey config with
        | None => send_returns w [console_error "VAPI Widget: public-key is required"]
        | Some key =>
            match assistantId config with
            | None =>
                send_returns w
                  [console_error "VAPI Widget: assistant-id is required"]
            | Some aid =>
                let w1 :=
                  set_messages (messages w ++ [mkMessage user message]) w in
                let w2 := render (set_isLoading true (set_input [] w1)) in
                send_awaits w2
                  (dispatchEvent (message_event (mkMessage user message))
                   :: callVapiAPI_request w2 message config)
            end
        end
  end.

(** [sendMessage()] from the resumption to its end. *)
Definition sendMessage_finish (w : Widget) (o : FetchOutcome)
  : Widget * list Effect :=
  let (w1, r) := callVapiAPI_response w o in
  let (w2, effects) :=
    match r with
    | inr response =>
        let w2 :=
          set_messages
            (messages w1 ++ [mkMessage assistant (fullContent response)]) w1 in
        let w3 :=
          if truthy (chatId response)
          then set_previousChatId (chatId response) w2 else w2 in
        (w3,
         [dispatchEvent
            (message_event (mkMessage assistant (fullContent response)))])
    | inl error =>
        (set_messages
           (messages w1 ++
            [mkMessage assistant
               (lit "Sorry, I encountered an error. Please try again.")]) w1,
         [console_error "VAPI Widget Error:";
          dispatchEvent (error_event error)])
    end in
  (render (set_isLoading false w2), effects).

(** A whole [sendMessage()] call with nothing interleaved. *)
Definition sendMessage (w : Widget) (o : FetchOutcome)
  : Widget * list Effect :=
  match sendMessage_start w with
  | send_returns w' effects => (w', effects)
  | send_awaits w' effects =>
      let (w'', effects') := sendMessage_finish w' o in
      (w'', effects ++ effects')
  end.

End Streaming.

(** ** The attribute-driven loader *)

Module Loader.

(** [config], read once from the data attributes of the script tag. *)
Record Config := mkConfig {
  publicKey : jsstring;
  assistantId : jsstring;
  mode : jsstring;
  theme : jsstring;
  position : jsstring;
  size : jsstring;
  radius : jsstring;
  baseColor : jsstring;
  accentColor : jsstring;
  buttonBaseColor : jsstring;
  buttonAccentColor : jsstring;
  mainLabel : jsstring;
  startButtonText : jsstring;
  endButtonText : jsstring;
  emptyChatMessage : jsstring;
  emptyVoiceMessage : jsstring;
  placeholder : jsstring;
  assistantOverrides : jsstring;
  requireConsent : jsstring;
  termsContent : jsstring;
  showTranscript : jsstring;
  logo : jsstring;
  logoSize : jsstring;
  logoAlt : jsstring;
  headerTitle : jsstring;
  footer : jsstring;
  footerLink : jsstring;
  footerLinkText : jsstring
}.

(** [currentScript.getAttribute(name) || fallback] *)
Definition attr_or (attrs : gmap string jsstring) (name : string)
  (fallback : jsstring) : jsstring :=
  match attrs !! name with
  | Some v => if nonempty v then v else fallback
  | None => fallback
  end.

Definition read_config (attrs : gmap string jsstring) : Config :=
  let get name := attr_or attrs name [] in
  {| publicKey := get "data-public-key";
     assistantId := get "data-assistant-id";
     mode := attr_or attrs "data-mode" (lit "chat");
     theme := attr_or attrs "data-theme" (lit "light");
     position := attr_or attrs "data-position" (lit "bottom-right");
     size := attr_or attrs "data-size" (lit "full");
     radius := attr_or attrs "data-radius" (lit "medium");
     baseColor := get "data-base-color";
     accentColor := attr_or attrs "data-accent-color" (get "data-primary-color");
     buttonBaseColor := get "data-button-base-color";
     buttonAccentColor := get "data-button-accent-color";
     mainLabel := attr_or attrs "data-main-label" (get "data-header-title");
     startButtonText := get "data-start-button-text";
     endButtonText := get "data-end-button-text";
     emptyChatMessage :=
       attr_or attrs "data-empty-chat-message" (get "data-welcome-message");
     emptyVoiceMessage := get "data-empty-voice-message";
     placeholder := get "data-placeholder";
     assistantOverrides := get "data-assistant-overrides";
     requireConsent := get "data-require-consent";
     termsContent := get "data-terms-content";
     showTranscript := get "data-show-transcript";
     logo := get "data-logo";
     logoSize := attr_or attrs "data-logo-size" (lit "32");
     logoAlt := attr_or attrs "data-logo-alt" (lit "Logo");
     headerTitle := get "data-header-title";
     footer := get "data-footer";
     footerLink := get "data-footer-link";
     footerLinkText := get "data-footer-link-text" |}.

(** [if (v) widget.setAttribute(name, v)] *)
Definition set_if (name : string) (v : jsstring)
  (m : gmap string jsstring) : gmap string jsstring :=
  if nonempty v then <[name := v]> m else m.

(** [createVapiWidget()]: the attributes of the element it appends. *)
Definition createVapiWidget (c : Config) : gmap string jsstring :=
  set_if "show-transcript" (showTranscript c)
   (set_if "terms-content" (termsContent c)
   (set_if "require-consent" (requireConsent c)
   (set_if "assistant-overrides" (assistantOverrides c)
   (set_if "placeholder" (placeholder c)
   (set_if "empty-voice-message" (emptyVoiceMessage c)
   (set_if "empty-chat-message" (emptyChatMessage c)
   (set_if "end-button-text" (endButtonText c)
   (set_if "start-button-text" (startButtonText c)
   (set_if "main-label" (mainLabel c)
   (set_if "button-accent-color" (buttonAccentColor c)
   (set_if "button-base-color" (buttonBaseColor c)
   (set_if "accent-color" (accentColor c)
   (set_if "base-color" (baseColor c)
   (set_if "radius" (radius c)
   (set_if "size" (size c)
   (set_if "position" (position c)
   (set_if "theme" (theme c)
   (set_if "mode" (mode c)
   (set_if "assistant-id" (assistantId c)
   (<["public-key" := publicKey c]> ∅)))))))))))))))))))).

(** What [init] does to the page, in order. *)
Inductive Effect :=
| console_error (what : string)
| injectStyles
| loadVapiScript
| appendWidget (attrs : gmap string jsstring)
| observeForInjection
| console_log (what : string).

(** [injectCustomElements()]: nothing without a logo or a footer. *)
Definition injectCustomElements (c : Config) : list Effect :=
  if nonempty (logo c) || nonempty (footer c)
  then [observeForInjection] else [].

(** [init()]; [script_loads] tells whether the vendor script's load
    promise resolves. *)
Definition init (attrs : gmap string jsstring) (script_loads : bool)
  : list Effect :=
  let c := read_config attrs in
  if negb (nonempty (publicKey c)) then
    [console_error "VAPI Custom Widget: data-public-key is required"]
  else if negb (nonempty (assistantId c)) then
    [console_error "VAPI Custom Widget: data-assistant-id is required"]
  else
    [injectStyles; loadVapiScript]
    ++ (if script_loads
        then appendWidget (createVapiWidget c) :: injectCustomElements c
             ++ [console_log "VAPI Custom Widget initialized"]
        else [console_error "VAPI Custom Widget error:"]).

(** The effects that create a chat element or reach the network. *)
Definition creates_or_fetches (e : Effect) : bool :=
  match e with
  | loadVapiScript | appendWidget _ => true
  | _ => false
  end.

End Loader.

(** ** Sequences of calls on a widget *)

Inductive Op :=
| op_toggle (state : option bool)
| op_input (text : jsstring)
| op_send (o : FetchOutcome)
| op_setAttribute (name : string) (value : jsstring)
| op_removeAttribute (name : string)
| op_consent.


Section Runs.
Context `{NumberHost}.

Definition run_op (ws : Widget * Storage) (op : Op)
  : Widget * Storage * list Effect :=
  let (w, st) := ws in
  match op with
  | op_toggle state => let (w', e) := toggleChat state w in (w', st, e)
  | op_input text => (set_input text w, st, [])
  | op_send o => let (w', e) := sendMessage w o in (w', st, e)
  | op_setAttribute name value => (setAttribute name value w, st, [])
  | op_removeAttribute name => (removeAttribute name w, st, [])
  | op_consent => giveConsent w st
  end.

Fixpoint run_ops (ws : Widget * Storage) (ops : list Op)
  : Widget * Storage * list Effect :=
  match ops with
  | [] => (ws, [])
  | op :: rest =>
      let '(ws1, e1) := run_op ws op in
      let '(ws2, e2) := run_ops ws1 rest in
      (ws2, e1 ++ e2)
  end.
End Runs.

(** The events dispatched, in order. *)
Definition events (effects : list Effect) : list WidgetEvent :=
  omap (fun e => match e with dispatchEvent ev => Some ev | _ => None end)
       effects.

(** The requests issued, in order. *)
Definition requests (effects : list Effect) : list Request :=
  omap (fun e => match e with fetch r => Some r | _ => None end) effects.


(** An attribute that is not there, or is there with the empty value. *)
Definition missing (attrs : gmap string jsstring) (name : string) : Prop :=
  attrs !! name = None \/ attrs !! name = Some [].

(** ** Frames of the stream *)

(** The members of a frame [data: {...}] whose text after the prefix parses
    to an object. *)
Definition frame_fields (line : jsstring)
  : option (list (jsstring * JsValue)) :=
  if startsWith (lit "data: ") line then
    match JSON_parse (slice 6 line) with
    | Some (JObj ms) => Some ms
    | _ => None
    end
  else None.






Section FrameValues.
Context `{NumberHost}.

(** The truthy [id] value a line offers to [chatId], whatever its type. *)
Definition line_id (line : jsstring) : option JsValue :=
  if startsWith (lit "data: ") line then
    match JSON_parse (slice 6 line) with
    | Some data =>
        match property data (lit "id") with
        | Some (Some v) => if truthy v then Some v else None
        | _ => None
        end
    | None => None
    end
  else None.

(** The text a line adds to [fullContent], whatever the type of its
    [delta]. *)
Definition line_delta (line : jsstring) : jsstring :=
  if startsWith (lit "data: ") line then
    match JSON_parse (slice 6 line) with
    | Some data =>
        match property data (lit "delta") with
        | Some (Some d) => if truthy d then to_string d else []
        | _ => []
        end
    | None => []
    end
  else [].

(** The lines the loop body runs on, over the whole stream. *)
Definition stream_frames (chunks : list jsstring) : list jsstring :=
  concat (map chunk_lines chunks).
End FrameValues.

(** A position in a chunk where a line begins. *)
Definition line_start (before : jsstring) : Prop :=
  before = [] \/ exists c, before = c ++ [10].

(** A position in a chunk where a line ends. *)
Definition line_end (after : jsstring) : Prop :=
  after = [] \/ exists c, after = 10 :: c.

(** ** Sequences of toggles *)



Fixpoint toggle_all (w : Widget) (states : list (option bool))
  : Widget * list Effect :=
  match states with
  | [] => (w, [])
  | s :: rest =>
      let (w1, e1) := toggleChat s w in
      let (w2, e2) := toggle_all w1 rest in
      (w2, e1 ++ e2)
  end.


(** ** A host for running the examples *)

(** Exact on number literals in the form [Number::toString] prints (such as
    [0], [12], [-3.5]); the examples carry no other numbers. *)
Fixpoint mantissa (l : jsstring) : jsstring :=
  match l with
  | c :: r => if (c =? 101) || (c =? 69) then [] else c :: mantissa r
  | [] => []
  end.

Definition example_host : NumberHost :=
  {| number_truthy l := existsb (fun c => (49 <=? c) && (c <=? 57)) (mantissa l);
     number_toString l := l |}.


(** ** States *)


(** The loop touches the widget only through its shadow tree. *)
Definition same_state (w w' : Widget) : Prop :=
  attributes w' = attributes w
  /\ isOpen w' = isOpen w
  /\ messages w' = messages w
  /\ isLoading w' = isLoading w
  /\ previousChatId w' = previousChatId w
  /\ consentGiven w' = consentGiven w.

(** ** Data for the examples *)

Definition demo_attrs : gmap string jsstring :=
  <["public-key" := lit "pk_1"]> (<["assistant-id" := lit "asst_1"]> ∅).

(** A connected widget with [Hi] typed into its input. *)
Definition demo_widget : Widget :=
  set_input (lit "Hi")
    (connectedCallback (new_widget demo_attrs) storage_unavailable).

(** The same with consent required and storage empty. *)
Definition gated_widget : Widget :=
  connectedCallback (new_widget (<["require-consent" := lit "true"]> demo_attrs))
    (storage_items ∅ false).

(** A connected widget without identifiers, with [Hi] typed in. *)
Definition unconfigured_widget : Widget :=
  set_input (lit "Hi") (connectedCallback (new_widget ∅) storage_unavailable).

(** The three frames [data: {"delta":"Hel"}], [data: {"delta":"lo"}] and
    [data: {"id":"c1"}], one chunk each. *)
Definition hello_chunks : list jsstring :=
  [payload "data: {'delta':'Hel'}" ++ [10];
   payload "data: {'delta':'lo'}" ++ [10];
   payload "data: {'id':'c1'}" ++ [10]].

(** ** Outcomes of a request *)

(** The value [callVapiAPI] throws for an outcome, if it throws. *)
Definition thrown (o : FetchOutcome) : option Failure :=
  match o with
  | fetch_rejects => Some FetchRejected
  | http_error status => Some (ApiError status)
  | http_ok _ true => None
  | http_ok _ false => Some ReadRejected
  end.

(** The events that announce an appended message: [message], or [error]
    for the apology. *)
Definition announces_message (e : WidgetEvent) : bool :=
  match e with
  | message_event _ | error_event _ => true
  | _ => false
  end.

Section Kept.
Context `{NumberHost}.

(** What a call keeps, from the widget before it to the widget after it. *)
Definition keeps (w w' : Widget) (effects : list Effect) : Prop :=
  (exists more,
     messages w' = messages w ++ more
     /\ length more
        = length (filter (fun e => announces_message e = true) (events effects)))
  /\ (truthy (previousChatId w) = true -> truthy (previousChatId w') = true)
  /\ (consentGiven w = true -> consentGiven w' = true)
  /\ (isLoading w = false -> isLoading w' = false).

End Kept.

(** ** Texts made of lines *)

(** The lines, each followed by the end-of-line sequence [eol]. *)
Definition join_lines (eol : jsstring) (lines : list jsstring) : jsstring :=
  concat (map (fun l => l ++ eol) lines).

(** ** More queries on the shadow tree *)


(** The chat area once [updateStreamingMessage(content)] has written into
    it: the typing indicator is gone and the streamed bubble holds
    [content]. *)
Definition streamed (c : ChatArea) (content : jsstring) : ChatArea :=
  mkChatArea (empty_state c) (bubbles c) false (Some content)
             (input_value c) (input_disabled c).


(** ** The listeners *)

(** What reaches the listeners that [setupEventListeners] installs: a click
    on the floating button, on the close button of the header, on the send
    button or on the consent button, and a key pressed in the input. *)
Inductive UiEvent :=
| click_toggle
| click_close
| click_send
| keydown (key : jsstring) (shiftKey : bool)
| click_consent.

(** The listener that runs for an event on the current tree; an element
    that is not in the tree has no listener.  [o] is how the request ends
    if the event leads to one. *)
Section Listeners.
Context `{NumberHost}.

Definition on_event (ws : Widget * Storage) (e : UiEvent) (o : FetchOutcome)
  : Widget * Storage * list Effect :=
  let (w, st) := ws in
  match shadowRoot w with
  | None => (w, st, [])
  | Some d =>
      match e, body d with
      | click_toggle, _ => let (w', ef) := toggleChat None w in (w', st, ef)
      | click_close, _ => let (w', ef) := toggleChat (Some false) w in (w', st, ef)
      | click_send, chat_area _ => let (w', ef) := sendMessage w o in (w', st, ef)
      | keydown key shiftKey, chat_area _ =>
          if jsstring_eqb key (lit "Enter") && negb shiftKey
          then let (w', ef) := sendMessage w o in (w', st, ef)
          else (w, st, [])
      | click_consent, consent_screen _ => giveConsent w st
      | _, _ => (w, st, [])
      end
  end.

Fixpoint on_events (ws : Widget * Storage) (es : list (UiEvent * FetchOutcome))
  : Widget * Storage * list Effect :=
  match es with
  | [] => (ws, [])
  | (e, o) :: rest =>
      let '(ws1, e1) := on_event ws e o in
      let '(ws2, e2) := on_events ws1 rest in
      (ws2, e1 ++ e2)
  end.
End Listeners.


(** ** Escaping *)

(** [escapeHtml(text)]: the text is set as the content of a fresh element
    and read back as markup, which writes the ampersand, the angle brackets
    and the no-break space as character references. *)
Definition escape_unit (c : N) : jsstring :=
  if c =? 38 then lit "&amp;"
  else if c =? 60 then lit "&lt;"
  else if c =? 62 then lit "&gt;"
  else if c =? 160 then lit "&nbsp;"
  else [c].

Definition escapeHtml (text : jsstring) : jsstring :=
  concat (map escape_unit text).

(** ** The element the loader creates *)

(** The attribute names that [createVapiWidget] may set. *)
Definition forwarded_attributes : list string :=
  ["public-key"; "assistant-id"; "mode"; "theme"; "position"; "size"; "radius";
   "base-color"; "accent-color"; "button-base-color"; "button-accent-color";
   "main-label"; "start-button-text"; "end-button-text"; "empty-chat-message";
   "empty-voice-message"; "placeholder"; "assistant-overrides";
   "require-consent"; "terms-content"; "show-transcript"].

(** The value of a data attribute that is there and not empty. *)
Definition given (attrs : gmap string jsstring) (name : string)
  : option jsstring :=
  match attrs !! name with
  | Some v => if nonempty v then Some v else None
  | None => None
  end.

(** The conditional [setAttribute] calls of [createVapiWidget], last call
    first. *)
Definition forwarded (c : Loader.Config) : list (string * jsstring) :=
  [("show-transcript"%string, Loader.showTranscript c);
   ("terms-content"%string, Loader.termsContent c);
   ("require-consent"%string, Loader.requireConsent c);
   ("assistant-overrides"%string, Loader.assistantOverrides c);
   ("placeholder"%string, Loader.placeholder c);
   ("empty-voice-message"%string, Loader.emptyVoiceMessage c);
   ("empty-chat-message"%string, Loader.emptyChatMessage c);
   ("end-button-text"%string, Loader.endButtonText c);
   ("start-button-text"%string, Loader.startButtonText c);
   ("main-label"%string, Loader.mainLabel c);
   ("button-accent-color"%string, Loader.buttonAccentColor c);
   ("button-base-color"%string, Loader.buttonBaseColor c);
   ("accent-color"%string, Loader.accentColor c);
   ("base-color"%string, Loader.baseColor c);
   ("radius"%string, Loader.radius c);
   ("size"%string, Loader.size c);
   ("position"%string, Loader.position c);
   ("theme"%string, Loader.theme c);
   ("mode"%string, Loader.mode c);
   ("assistant-id"%string, Loader.assistantId c)].

(** ** The vendor widget's tree, as the loader reaches into it *)

Module Inject.

(** An element with its tag, its [class] attribute (empty where it has
    none), its other attributes and its children; or a text node. *)
Inductive Node :=
| Element (tag : string) (className : jsstring)
          (attrs : list (string * jsstring)) (children : list Node)
| Text (data : jsstring).

(** The two kinds of selector the loader uses: [[class*="s"]] and [.s]. *)
Inductive Selector :=
| class_contains (s : jsstring)
| class_is (s : jsstring).

(** [hay] contains [needle] as a substring. *)
Fixpoint contains (needle hay : jsstring) : bool :=
  startsWith needle hay
  || match hay with
     | [] => false
     | _ :: rest => contains needle rest
     end.

(** The white space that separates the names in a [class] attribute. *)
Definition is_class_space (c : N) : bool :=
  (c =? 9) || (c =? 10) || (c =? 12) || (c =? 13) || (c =? 32).

(** The names of a [class] attribute. *)
Fixpoint class_names (current s : jsstring) : list jsstring :=
  match s with
  | [] => match current with [] => [] | _ :: _ => [rev current] end
  | c :: rest =>
      if is_class_space c
      then match current with
           | [] => class_names [] rest
           | _ :: _ => rev current :: class_names [] rest
           end
      else class_names (c :: current) rest
  end.

Definition matches (sel : Selector) (n : Node) : bool :=
  match n with
  | Element _ cls _ _ =>
      match sel with
      | class_contains s => nonempty s && contains s cls
      | class_is s => bool_decide (s ∈ class_names [] cls)
      end
  | Text _ => false
  end.

(** A selector list [a, b]: an element that matches one of them. *)
Definition matches_any (sels : list Selector) (n : Node) : bool :=
  existsb (fun sel => matches sel n) sels.

Definition children_of (n : Node) : list Node :=
  match n with
  | Element _ _ _ ch => ch
  | Text _ => []
  end.

(** The first node of a tree, in document order, that satisfies [p]. *)
Fixpoint find_in (p : Node -> bool) (n : Node) : option Node :=
  if p n then Some n
  else match n with
       | Element _ _ _ ch =>
           (fix go (l : list Node) : option Node :=
              match l with
              | [] => None
              | x :: r =>
                  match find_in p x with
                  | Some y => Some y
                  | None => go r
                  end
              end) ch
       | Text _ => None
       end.

(** [root.querySelector(...)]: the first descendant in document order. *)
Fixpoint find_first (p : Node -> bool) (nodes : list Node) : option Node :=
  match nodes with
  | [] => None
  | x :: r =>
      match find_in p x with
      | Some y => Some y
      | None => find_first p r
      end
  end.

(** The tree with [f] applied to that first node; [None] where there is no
    such node. *)
Fixpoint update_in (p : Node -> bool) (f : Node -> Node) (n : Node)
  : option Node :=
  if p n then Some (f n)
  else match n with
       | Element tag cls attrs ch =>
           match
             (fix go (l : list Node) : option (list Node) :=
                match l with
                | [] => None
                | x :: r =>
                    match update_in p f x with
                    | Some x' => Some (x' :: r)
                    | None =>
                        match go r with
                        | Some r' => Some (x :: r')
                        | None => None
                        end
                    end
                end) ch
           with
           | Some ch' => Some (Element tag cls attrs ch')
           | None => None
           end
       | Text _ => None
       end.

Fixpoint update_first (p : Node -> bool) (f : Node -> Node) (nodes : list Node)
  : option (list Node) :=
  match nodes with
  | [] => None
  | x :: r =>
      match update_in p f x with
      | Some x' => Some (x' :: r)
      | None =>
          match update_first p f r with
          | Some r' => Some (x :: r')
          | None => None
          end
      end
  end.

(** [element.querySelector(sel)] is there. *)
Definition has_descendant (sels : list Selector) (n : Node) : bool :=
  match find_first (matches_any sels) (children_of n) with
  | Some _ => true
  | None => false
  end.

(** [const isDark = config.theme === 'dark'] *)
Definition isDark (c : Loader.Config) : bool :=
  jsstring_eqb (Loader.theme c) (lit "dark").

(** [const primaryColor = config.accentColor || '#14B8A6'] *)
Definition primaryColor (c : Loader.Config) : jsstring :=
  if nonempty (Loader.accentColor c) then Loader.accentColor c else lit "#14B8A6".

(** [getInlineStyles()] *)
Definition getInlineStyles (c : Loader.Config) : jsstring :=
  lit "
      .vapi-custom-logo {
        width: "
  ++ Loader.logoSize c
  ++ lit "px !important;
        height: "
  ++ Loader.logoSize c
  ++ lit "px !important;
        object-fit: contain !important;
        border-radius: 6px !important;
        margin-right: 8px !important;
      }
      
      .vapi-custom-footer {
        display: flex !important;
        align-items: center !important;
        justify-content: center !important;
        padding: 8px 16px !important;
        background: "
  ++ (if isDark c then lit "#1a1a2e" else lit "#f9fafb")
  ++ lit " !important;
        border-top: 1px solid "
  ++ (if isDark c then lit "#2d2d44" else lit "#e5e7eb")
  ++ lit " !important;
        font-size: 12px !important;
        color: "
  ++ (if isDark c then lit "#9ca3af" else lit "#6b7280")
  ++ lit " !important;
      }
      
      .vapi-custom-footer a {
        color: "
  ++ primaryColor c
  ++ lit " !important;
        text-decoration: none !important;
        margin-left: 4px !important;
      }
    ".

(** The text assigned to [logoImg.style.cssText]. *)
Definition logo_css (c : Loader.Config) : jsstring :=
  lit "
      width: "
  ++ Loader.logoSize c
  ++ lit "px !important;
      height: "
  ++ Loader.logoSize c
  ++ lit "px !important;
      object-fit: contain !important;
      border-radius: 6px !important;
      margin-right: 8px !important;
    ".

(** The text assigned to [footer.style.cssText]. *)
Definition footer_css (c : Loader.Config) : jsstring :=
  lit "
      display: flex !important;
      align-items: center !important;
      justify-content: center !important;
      padding: 8px 16px !important;
      background: "
  ++ (if isDark c then lit "#1a1a2e" else lit "#f9fafb")
  ++ lit " !important;
      border-top: 1px solid "
  ++ (if isDark c then lit "#2d2d44" else lit "#e5e7eb")
  ++ lit " !important;
      font-size: 12px !important;
      color: "
  ++ (if isDark c then lit "#9ca3af" else lit "#6b7280")
  ++ lit " !important;
      position: relative !important;
      z-index: 10 !important;
    ".

(** The markup assigned to [footer.innerHTML] when there is a link. *)
Definition footer_markup (c : Loader.Config) : jsstring :=
  Loader.footer c
  ++ lit " <a href="
  ++ [34]
  ++ Loader.footerLink c
  ++ [34]
  ++ lit " target="
  ++ [34]
  ++ lit "_blank"
  ++ [34]
  ++ lit " rel="
  ++ [34]
  ++ lit "noopener"
  ++ [34]
  ++ lit ">"
  ++ Loader.footerLinkText c
  ++ lit "</a>".

Definition logo_class : jsstring := lit "vapi-custom-logo".
Definition footer_class : jsstring := lit "vapi-custom-footer".

Section Injection.
(** How the host parses markup assigned to [innerHTML]. *)
Variable parse_html : jsstring -> list Node.

(** The [img] element that [injectLogoIntoHeader] creates. *)
Definition logoImg (c : Loader.Config) : Node :=
  Element "img" logo_class
    [("src"%string, Loader.logo c); ("alt"%string, Loader.logoAlt c);
     ("style"%string, logo_css c)] [].

(** [injectLogoIntoHeader(header)] *)
Definition injectLogoIntoHeader (c : Loader.Config) (header : Node) : Node :=
  if negb (nonempty (Loader.logo c)) || has_descendant [class_is logo_class] header
  then header
  else match header with
       | Element tag cls attrs ch => Element tag cls attrs (logoImg c :: ch)
       | Text _ => header
       end.

(** The [div] element that [injectFooter] creates. *)
Definition footerDiv (c : Loader.Config) : Node :=
  Element "div" footer_class [("style"%string, footer_css c)]
    (if nonempty (Loader.footerLink c) && nonempty (Loader.footerLinkText c)
     then parse_html (footer_markup c)
     else [Text (Loader.footer c)]).

(** [injectFooter(container)] *)
Definition injectFooter (c : Loader.Config) (container : Node) : Node :=
  if negb (nonempty (Loader.footer c))
     || has_descendant [class_is footer_class] container
  then container
  else match container with
       | Element tag cls attrs ch => Element tag cls attrs (ch ++ [footerDiv c])
       | Text _ => container
       end.

(** [for (const selector of selectors)]: the first selector that finds an
    element has [f] applied to that element, and the loop ends. *)
Fixpoint first_found (sels : list Selector) (f : Node -> Node)
  (root : list Node) : list Node :=
  match sels with
  | [] => root
  | sel :: rest =>
      match update_first (matches sel) f root with
      | Some root' => root'
      | None => first_found rest f root
      end
  end.

Definition headerSelectors : list Selector :=
  [class_contains (lit "header"); class_contains (lit "Header");
   class_contains (lit "title"); class_contains (lit "top")].

Definition containerSelectors : list Selector :=
  [class_contains (lit "container"); class_contains (lit "wrapper");
   class_contains (lit "chat"); class_contains (lit "widget")].

(** The [style] element that [injectIntoShadowDOM] creates. *)
Definition styleElement (c : Loader.Config) : Node :=
  Element "style" [] [] [Text (getInlineStyles c)].

(** [injectIntoShadowDOM(shadowRoot)], on the children of the root. *)
Definition injectIntoShadowDOM (c : Loader.Config) (shadowRoot : list Node)
  : list Node :=
  let root1 := shadowRoot ++ [styleElement c] in
  let root2 :=
    if nonempty (Loader.logo c)
    then first_found headerSelectors (injectLogoIntoHeader c) root1
    else root1 in
  if nonempty (Loader.footer c)
  then first_found containerSelectors (injectFooter c) root2
  else root2.

(** [injectIntoLightDOM(widget)] *)
Definition injectIntoLightDOM (c : Loader.Config) (widget : Node) : Node :=
  let widget1 :=
    if nonempty (Loader.logo c) then
      match widget with
      | Element tag cls attrs ch =>
          match update_first
                  (matches_any [class_contains (lit "header");
                                class_contains (lit "Header")])
                  (injectLogoIntoHeader c) ch with
          | Some ch' => Element tag cls attrs ch'
          | None => widget
          end
      | Text _ => widget
      end
    else widget in
  if nonempty (Loader.footer c) then injectFooter c widget1 else widget1.

(** The first [vapi-widget] element of the document, where there is one:
    the element itself and its shadow root where that is open. *)
Record Found := mkFound {
  element : Node;
  shadowRoot : option (list Node)
}.

(** The callback of the observer in [injectCustomElements]: the document
    afterwards, and whether the observer was disconnected. *)
Definition observer_callback (c : Loader.Config) (doc : option Found)
  : option Found * bool :=
  match doc with
  | None => (None, false)
  | Some w =>
      match shadowRoot w with
      | Some root => (Some (mkFound (element w) (Some (injectIntoShadowDOM c root))), true)
      | None =>
          if has_descendant [class_contains (lit "container");
                             class_contains (lit "wrapper");
                             class_contains (lit "chat")] (element w)
          then (Some (mkFound (injectIntoLightDOM c (element w)) None), true)
          else (doc, false)
      end
  end.

(** [tryInjectCustomElements()], run by the timer after two seconds: the
    document afterwards, and whether [createOverlayCustomizations] went on
    to start its polling. *)
Definition tryInjectCustomElements (c : Loader.Config) (doc : option Found)
  : option Found * bool :=
  match doc with
  | None => (None, false)
  | Some w =>
      match shadowRoot w with
      | Some root => (Some (mkFound (element w) (Some (injectIntoShadowDOM c root))), false)
      | None => (doc, nonempty (Loader.logo c) || nonempty (Loader.headerTitle c))
      end
  end.

End Injection.

(** [n'] is [n] with further subtrees put in, each of them [inert]. *)
Inductive extends (inert : Node -> bool) : Node -> Node -> Prop :=
| extends_text data : extends inert (Text data) (Text data)
| extends_element tag cls attrs ch ch' :
    extends_all inert ch ch' ->
    extends inert (Element tag cls attrs ch) (Element tag cls attrs ch')
with extends_all (inert : Node -> bool) : list Node -> list Node -> Prop :=
| extends_nil : extends_all inert [] []
| extends_added n nodes nodes' :
    inert n = true -> extends_all inert nodes nodes' ->
    extends_all inert nodes (n :: nodes')
| extends_kept n n' nodes nodes' :
    extends inert n n' -> extends_all inert nodes nodes' ->
    extends_all inert (n :: nodes) (n' :: nodes').

(** The selectors that [injectIntoShadowDOM] searches with. *)
Definition searched : list Selector := headerSelectors ++ containerSelectors.

(** A subtree in which none of those selectors finds anything. *)
Definition unsearched (n : Node) : bool :=
  match find_in (matches_any searched) n with
  | Some _ => false
  | None => true
  end.

(** The footer's markup, where the host parses it, holds no element that
    those selectors find. *)
Definition footer_unsearched (parse_html : jsstring -> list Node)
  (c : Loader.Config) : Prop :=
  nonempty (Loader.footerLink c) && nonempty (Loader.footerLinkText c) = true ->
  find_first (matches_any searched) (parse_html (footer_markup c)) = None.

End Inject.

(** ** Data for the examples of the loader *)

Definition loader_attrs : gmap string jsstring :=
  <["data-public-key" := lit "pk_1"]>
    (<["data-assistant-id" := lit "asst_1"]>
       (<["data-logo" := lit "logo.png"]>
          (<["data-footer" := lit "Powered by"]>
             (<["data-footer-link" := lit "https://example.com"]>
                (<["data-footer-link-text" := lit "Example"]> ∅))))).

(** A shadow root of the vendor widget: a window with a header and a list of
    messages. *)
Definition vendor_root : list Inject.Node :=
  [Inject.Element "div" (lit "chat-window") []
     [Inject.Element "div" (lit "chat-header") [] [Inject.Text (lit "Chat")];
      Inject.Element "div" (lit "messages") [] []]].

(** The vendor widget with the same tree as its own children. *)
Definition vendor_widget : Inject.Node :=
  Inject.Element "vapi-widget" [] [] vendor_root.

(** What a host makes of the footer's markup under [loader_attrs]: the text
    and the link. *)
Definition parsed_footer (markup : jsstring) : list Inject.Node :=
  [Inject.Text (lit "Powered by ");
   Inject.Element "a" []
     [("href"%string, lit "https://example.com");
      ("target"%string, lit "_blank"); ("rel"%string, lit "noopener")]
     [Inject.Text (lit "Example")]].

(** A host that finds a header in the footer's markup. *)
Definition parsed_footer_with_header (markup : jsstring) : list Inject.Node :=
  [Inject.Element "div" (lit "header") [] [Inject.Text (lit "Powered by")]].

(** * Properties *)

(** ** Required identifiers *)

Lemma attr_or_missing attrs name :
  missing attrs name -> Loader.attr_or attrs name [] = [].
Proof.
  unfold Loader.attr_or. intros [-> | ->]; reflexivity.
Qed.

Lemma getAttr_missing w name :
  missing (attributes w) name -> getAttr w name = None.
Proof.
  unfold getAttr. intros [-> | ->]; reflexivity.
Qed.

Lemma loader_init_missing attrs script_loads :
  missing attrs "data-public-key" \/ missing attrs "data-assistant-id" ->
  exists what, Loader.init attrs script_loads = [Loader.console_error what].
Proof.
  intros Hm. unfold Loader.init. cbn [Loader.read_config Loader.publicKey Loader.assistantId].
  destruct (nonempty (Loader.attr_or attrs "data-public-key" [])) eqn:Hk; cbn [negb].
  - destruct Hm as [Hm | Hm].
    + rewrite (attr_or_missing _ _ Hm) in Hk. discriminate.
    + rewrite (attr_or_missing _ _ Hm). cbn. eauto.
  - eauto.
Qed.

Section SendGuards.
Context `{NumberHost}.

Lemma sendMessage_missing w o :
  missing (attributes w) "public-key" \/ missing (attributes w) "assistant-id" ->
  exists effects,
    sendMessage w o = (w, effects)
    /\ (effects = [] \/ exists what, effects = [console_error what]).
Proof.
  intros Hm. unfold sendMessage, sendMessage_start.
  destruct (chat_input w) as [value |]; [| eauto].
  destruct (negb (nonempty (trim value)) || isLoading w); [eauto |].
  cbn [getConfig publicKey assistantId].
  destruct (getAttr w "public-key") eqn:Hk; [| eauto 6].
  destruct (getAttr w "assistant-id") eqn:Ha; [| eauto 6].
  destruct Hm as [Hm | Hm]; apply getAttr_missing in Hm; congruence.
Qed.

(** C3. Where the public key or the assistant id is missing, the loader's
    [init] only logs an error: it creates no chat element and loads nothing
    from the network; and the widget's [sendMessage] returns with the widget
    unchanged, having at most logged an error, before any request. *)
Theorem missing_identifier_aborts
  (attrs : gmap string jsstring) (script_loads : bool)
  (w : Widget) (o : FetchOutcome) :
  missing attrs "data-public-key" \/ missing attrs "data-assistant-id" ->
  missing (attributes w) "public-key" \/ missing (attributes w) "assistant-id" ->
  (exists what, Loader.init attrs script_loads = [Loader.console_error what])
  /\ filter (fun e => Loader.creates_or_fetches e = true)
            (Loader.init attrs script_loads) = []
  /\ fst (sendMessage w o) = w
  /\ requests (snd (sendMessage w o)) = []
  /\ events (snd (sendMessage w o)) = [].
Proof.
  intros Hl Hw.
  destruct (loader_init_missing attrs script_loads Hl) as [what Hi].
  destruct (sendMessage_missing w o Hw) as (effects & Hs & He).
  rewrite Hi, Hs. split; [eauto |]. split; [reflexivity |].
  split; [reflexivity |].
  destruct He as [-> | [what' ->]]; split; reflexivity.
Qed.

(** ** Blank input and a send in flight *)

(** C6. Where the input value trims to the empty string, or [isLoading] is
    already true, [sendMessage] returns at once: the widget (messages, flags,
    shadow tree) is unchanged and there is no effect at all, so no request
    and no event. *)
Theorem blank_or_loading_send_ignored (w : Widget) (o : FetchOutcome) :
  (exists value, chat_input w = Some value /\ trim value = [])
  \/ isLoading w = true ->
  sendMessage_start w = send_returns w [] /\ sendMessage w o = (w, []).
Proof.
  intros Hc.
  assert (Hs : sendMessage_start w = send_returns w []).
  { unfold sendMessage_start.
    destruct (chat_input w) as [value |] eqn:Hi; [| reflexivity].
    destruct Hc as [(v & Hv & Ht) | Hl].
    - injection Hv as <-. rewrite Ht. reflexivity.
    - rewrite Hl, orb_true_r. reflexivity. }
  split; [exact Hs |]. unfold sendMessage. rewrite Hs. reflexivity.
Qed.

(** While a send is suspended on its request, [isLoading] is true. *)
Lemma in_flight_is_loading w w' effects :
  sendMessage_start w = send_awaits w' effects -> isLoading w' = true.
Proof.
  unfold sendMessage_start.
  destruct (chat_input w); [| discriminate].
  destruct (negb _ || _); [discriminate |].
  destruct (publicKey _); [| discriminate].
  destruct (assistantId _); [| discriminate].
  intros [= <- _]. reflexivity.
Qed.

End SendGuards.

(** ** The consent gate *)

Lemma getConfig_render w : getConfig (render w) = getConfig w.
Proof. reflexivity. Qed.


(** C4. On construction the consent check grants consent when it is not
    required; when it is required, consent is given exactly when storage
    holds the string [true] under the configured key; and when reading
    storage throws, consent is not given. *)
Theorem checkConsent_on_construction (w : Widget) (st : Storage) :
  let config := getConfig w in
  consentGiven (checkConsent w st)
  = match requireConsent config, st with
    | false, _ => true
    | true, storage_unavailable => false
    | true, storage_items items _ =>
        bool_decide (items !! localStorageKey config = Some (lit "true"))
    end
  /\ consentGiven (connectedCallback w st) = consentGiven (checkConsent w st)
  /\ consentGiven (new_widget (attributes w)) = false.
Proof.
  cbv zeta. split; [| split; [| reflexivity]].
  - unfold checkConsent.
    destruct (requireConsent (getConfig w)); cbn [negb]; [| reflexivity].
    destruct st as [| items q]; reflexivity.
  - unfold connectedCallback, checkConsent. rewrite getConfig_render.
    destruct (requireConsent (getConfig w)); cbn [negb]; [| reflexivity].
    destruct (getItem st (localStorageKey (getConfig w))); reflexivity.
Qed.

(** C5. [giveConsent] always leaves [consentGiven] true.  Where the write
    succeeds, storage holds the string [true] under the configured key and a
    later [checkConsent] with that key finds consent given; where the write
    throws, storage is as before, a warning is logged and nothing else
    happens. *)
Theorem giveConsent_persists (w w2 : Widget) (st : Storage) :
  localStorageKey (getConfig w2) = localStorageKey (getConfig w) ->
  let key := localStorageKey (getConfig w) in
  let '(w', st', effects) := giveConsent w st in
  consentGiven w' = true
  /\ match st with
     | storage_items items false =>
         st' = storage_items (<[key := lit "true"]> items) false
         /\ effects = []
         /\ getItem st' key = Some (Some (lit "true"))
         /\ consentGiven (checkConsent w2 st') = true
     | _ =>
         st' = st
         /\ effects = [console_warn "Could not save consent to localStorage"]
     end.
Proof.
  intros Hk. cbv zeta. unfold giveConsent.
  destruct st as [| items [|]]; cbn [setItem]; split; try reflexivity; try (split; reflexivity).
  split; [reflexivity |]. split; [reflexivity |].
  assert (Hg : getItem
                 (storage_items (<[localStorageKey (getConfig w) := lit "true"]> items) false)
                 (localStorageKey (getConfig w)) = Some (Some (lit "true"))).
  { cbn [getItem]. rewrite lookup_insert_eq. reflexivity. }
  split; [exact Hg |].
  unfold checkConsent. destruct (requireConsent (getConfig w2)); [| reflexivity].
  cbn [negb]. rewrite Hk, Hg. cbn [consentGiven set_consentGiven].
  apply bool_decide_eq_true. reflexivity.
Qed.

(** ** Open and close events *)






(** ** The consent screen *)




Lemma set_input_state text w :
  attributes (set_input text w) = attributes w
  /\ isLoading (set_input text w) = isLoading w
  /\ messages (set_input text w) = messages w
  /\ previousChatId (set_input text w) = previousChatId w
  /\ consentGiven (set_input text w) = consentGiven w
  /\ isOpen (set_input text w) = isOpen w.
Proof.
  unfold set_input. destruct (shadowRoot w) as [d |]; [| repeat split].
  destruct (body d); repeat split.
Qed.



Section ConsentGate.
Context `{NumberHost}.






End ConsentGate.

(** ** Lines of a chunk *)

Lemma split_lines_nonempty s : split_lines s <> [].
Proof.
  destruct s as [| c r]; cbn [split_lines]; [discriminate |].
  destruct (c =? 10); [discriminate |].
  destruct (split_lines r); discriminate.
Qed.

Lemma split_lines_app x y :
  split_lines (x ++ 10 :: y) = split_lines x ++ split_lines y.
Proof.
  induction x as [| c x IH]; [reflexivity |].
  cbn [app split_lines]. destruct (c =? 10).
  - rewrite IH. reflexivity.
  - rewrite IH. pose proof (split_lines_nonempty x) as Hx.
    destruct (split_lines x); [congruence | reflexivity].
Qed.

Lemma split_lines_single l : 10 ∉ l -> split_lines l = [l].
Proof.
  induction l as [| c l IH]; intros Hn; [reflexivity |].
  cbn [split_lines]. destruct (N.eqb_spec c 10) as [-> | _].
  - exfalso. apply Hn. left.
  - rewrite IH; [reflexivity |]. intros Hin. apply Hn. right. exact Hin.
Qed.

Section StreamLemmas.
Context `{NumberHost}.

Lemma chunk_lines_app x y :
  chunk_lines (x ++ 10 :: y) = chunk_lines x ++ chunk_lines y.
Proof. unfold chunk_lines. rewrite split_lines_app, filter_app. reflexivity. Qed.

Lemma chunk_lines_nil : chunk_lines [] = [].
Proof. reflexivity. Qed.

Lemma chunk_lines_single l :
  10 ∉ l -> chunk_lines l = if nonempty (trim l) then [l] else [].
Proof.
  intros Hn. unfold chunk_lines. rewrite (split_lines_single l Hn).
  cbn [filter]. unfold filter, list_filter. 
  destruct (decide (nonempty (trim l) = true)) as [-> | Hf]; [reflexivity |].
  destruct (nonempty (trim l)); [congruence | reflexivity].
Qed.

Lemma read_stream_frames w chunks :
  read_stream w chunks
  = fold_left process_line (stream_frames chunks) (w, stream_start).
Proof.
  unfold read_stream, stream_frames. generalize (w, stream_start).
  induction chunks as [| c rest IH]; intros ws; [reflexivity |].
  cbn [fold_left map concat]. rewrite fold_left_app, IH. reflexivity.
Qed.


Lemma same_state_refl w : same_state w w.
Proof. repeat split. Qed.

Lemma same_state_trans a b c : same_state a b -> same_state b c -> same_state a c.
Proof. unfold same_state. intuition congruence. Qed.

Lemma updateStreamingMessage_state content w :
  same_state w (updateStreamingMessage content w).
Proof.
  unfold updateStreamingMessage. destruct (shadowRoot w) as [d |]; [| repeat split].
  destruct (body d); repeat split.
Qed.

Lemma process_line_state w s line :
  same_state w (fst (process_line (w, s) line)).
Proof.
  unfold process_line.
  destruct (startsWith _ line); [| apply same_state_refl].
  destruct (JSON_parse _) as [data |]; [| apply same_state_refl].
  destruct (property data (lit "id")) as [id |]; [| apply same_state_refl].
  destruct (property data (lit "delta")) as [[d |] |]; try apply same_state_refl.
  destruct (truthy d); [apply updateStreamingMessage_state | apply same_state_refl].
Qed.

Lemma fold_process_line_state lines : forall w s,
  same_state w (fst (fold_left process_line lines (w, s))).
Proof.
  induction lines as [| l rest IH]; intros w s; [apply same_state_refl |].
  cbn [fold_left]. pose proof (process_line_state w s l) as Hl.
  destruct (process_line (w, s) l) as [w1 s1]. cbn [fst] in Hl.
  eapply same_state_trans; [exact Hl | apply IH].
Qed.


Lemma process_line_stream w s line :
  snd (process_line (w, s) line)
  = mkStream (fullContent s ++ line_delta line)
             (if truthy (chatId s) then chatId s
              else match line_id line with Some v => v | None => chatId s end).
Proof.
  unfold process_line, line_delta, line_id.
  assert (Hs : s = mkStream (fullContent s ++ [])
                            (if truthy (chatId s) then chatId s else chatId s)).
  { rewrite app_nil_r. destruct s as [c i]. cbn. destruct (truthy i); reflexivity. }
  destruct (startsWith _ line); [| exact Hs].
  destruct (JSON_parse _) as [data |]; [| exact Hs].
  destruct data as [| b | l | str | items | ms]; cbn [property];
    [exact Hs | | | | |].
  5: destruct (get_member (lit "id") ms) as [v |],
              (get_member (lit "delta") ms) as [d |].
  all: repeat match goal with
           | |- context [truthy ?x] =>
               lazymatch x with
               | chatId _ => fail
               | _ => destruct (truthy x) eqn:?
               end
           end;
    cbn [snd fullContent chatId andb negb];
    rewrite ?app_nil_r; destruct (truthy (chatId s)); reflexivity.
Qed.

End StreamLemmas.

Section StreamResults.
Context `{NumberHost}.

Lemma line_id_truthy line v : line_id line = Some v -> truthy v = true.
Proof.
  unfold line_id. destruct (startsWith _ line); [| discriminate].
  destruct (JSON_parse _) as [data |]; [| discriminate].
  destruct (property data (lit "id")) as [[x |] |]; try discriminate.
  destruct (truthy x) eqn:Hx; [| discriminate]. intros [= <-]. exact Hx.
Qed.

(** The locals after the loop body has run on a list of lines. *)
Lemma fold_process_line_stream lines : forall w s,
  snd (fold_left process_line lines (w, s))
  = mkStream (fullContent s ++ concat (map line_delta lines))
             (if truthy (chatId s) then chatId s
              else default (chatId s) (head (omap line_id lines))).
Proof.
  induction lines as [| l rest IH]; intros w s.
  - cbn. rewrite app_nil_r. destruct s as [c i]. cbn. destruct (truthy i); reflexivity.
  - cbn [fold_left]. pose proof (process_line_stream w s l) as Hl.
    destruct (process_line (w, s) l) as [w1 s1]. cbn [snd] in Hl.
    rewrite IH, Hl. cbn [fullContent chatId map concat].
    rewrite <- app_assoc. f_equal.
    change (omap line_id (l :: rest))
      with (match line_id l with
            | Some y => y :: omap line_id rest
            | None => omap line_id rest
            end).
    destruct (truthy (chatId s)) eqn:Ht; [rewrite Ht; reflexivity |].
    destruct (line_id l) as [v |] eqn:Hv.
    + rewrite (line_id_truthy l v Hv). reflexivity.
    + rewrite Ht. reflexivity.
Qed.

Lemma chunk_lines_at before l after :
  line_start before -> line_end after ->
  chunk_lines (before ++ l ++ after)
  = chunk_lines before ++ chunk_lines l ++ chunk_lines after.
Proof.
  assert (Hafter : forall x, line_end after ->
            chunk_lines (x ++ after) = chunk_lines x ++ chunk_lines after).
  { intros x [-> | [c ->]].
    - rewrite !app_nil_r. reflexivity.
    - rewrite chunk_lines_app. change (10 :: c) with ([] ++ 10 :: c).
      rewrite (chunk_lines_app [] c). reflexivity. }
  intros [-> | [c ->]] Ha.
  - cbn [app]. rewrite Hafter by exact Ha. reflexivity.
  - rewrite <- app_assoc. cbn [app]. rewrite chunk_lines_app, (Hafter l Ha).
    rewrite (chunk_lines_app c []), chunk_lines_nil, app_nil_r.
    reflexivity.
Qed.

(** A line the loop body ignores can be removed from its chunk. *)
Lemma process_chunk_drop_line ws before l after :
  line_start before -> line_end after -> 10 ∉ l ->
  (forall ws', process_line ws' l = ws') ->
  process_chunk ws (before ++ l ++ after) = process_chunk ws (before ++ after).
Proof.
  intros Hb Ha Hn Hl. unfold process_chunk.
  rewrite (chunk_lines_at before l after Hb Ha).
  change (before ++ after) with (before ++ [] ++ after).
  rewrite (chunk_lines_at before [] after Hb Ha), chunk_lines_nil.
  rewrite !fold_left_app. f_equal.
  rewrite (chunk_lines_single l Hn).
  destruct (nonempty (trim l)); [apply Hl | reflexivity].
Qed.

Lemma read_stream_app w pre c post :
  read_stream w (pre ++ c :: post)
  = fold_left process_chunk post
      (process_chunk (fold_left process_chunk pre (w, stream_start)) c).
Proof. unfold read_stream. rewrite fold_left_app. reflexivity. Qed.

Lemma sendMessage_same_stream w chunks chunks' finished :
  (forall w', read_stream w' chunks = read_stream w' chunks') ->
  sendMessage w (http_ok chunks finished) = sendMessage w (http_ok chunks' finished).
Proof.
  intros Hs. unfold sendMessage.
  destruct (sendMessage_start w) as [w' e | w' e]; [reflexivity |].
  unfold sendMessage_finish, callVapiAPI_response. rewrite Hs. reflexivity.
Qed.

Lemma process_line_malformed ws line :
  JSON_parse (slice 6 line) = None -> process_line ws line = ws.
Proof.
  intros Hp. unfold process_line. destruct ws as [w s].
  destruct (startsWith _ line); [| reflexivity]. rewrite Hp. reflexivity.
Qed.

(** C2. A frame whose text after [data: ] is not valid JSON leaves the loop
    state as it was, wherever it stands in its chunk: the send ends exactly
    as it does on the stream without that frame, with the same content, the
    same chat id, the same messages and the same events (so no error). *)
Theorem malformed_frame_skipped
  (w : Widget) (ws : Widget * Stream)
  (pre post : list jsstring) (before bad after : jsstring) (finished : bool) :
  line_start before -> line_end after -> 10 ∉ bad ->
  startsWith (lit "data: ") bad = true ->
  JSON_parse (slice 6 bad) = None ->
  process_line ws bad = ws
  /\ process_chunk ws (before ++ bad ++ after) = process_chunk ws (before ++ after)
  /\ read_stream w (pre ++ (before ++ bad ++ after) :: post)
     = read_stream w (pre ++ (before ++ after) :: post)
  /\ sendMessage w (http_ok (pre ++ (before ++ bad ++ after) :: post) finished)
     = sendMessage w (http_ok (pre ++ (before ++ after) :: post) finished).
Proof.
  intros Hb Ha Hn _ Hp.
  assert (Hl : forall ws', process_line ws' bad = ws')
    by (intros ws'; apply process_line_malformed; exact Hp).
  assert (Hc : forall ws', process_chunk ws' (before ++ bad ++ after)
                           = process_chunk ws' (before ++ after))
    by (intros ws'; apply process_chunk_drop_line; assumption).
  assert (Hr : forall w', read_stream w' (pre ++ (before ++ bad ++ after) :: post)
                          = read_stream w' (pre ++ (before ++ after) :: post))
    by (intros w'; rewrite !read_stream_app, Hc; reflexivity).
  split; [apply Hl |]. split; [apply Hc |]. split; [apply Hr |].
  apply sendMessage_same_stream. exact Hr.
Qed.

End StreamResults.

Section WellFormedStreams.
Context `{NumberHost}.

Lemma frame_fields_parse line ms :
  frame_fields line = Some ms ->
  startsWith (lit "data: ") line = true
  /\ JSON_parse (slice 6 line) = Some (JObj ms).
Proof.
  unfold frame_fields. destruct (startsWith _ line); [| discriminate].
  destruct (JSON_parse _) as [[| | | | | ms'] |]; try discriminate.
  intros [= ->]. split; reflexivity.
Qed.

Lemma line_id_string line ms i :
  frame_fields line = Some ms -> get_member (lit "id") ms = Some (JStr i) ->
  line_id line = if nonempty i then Some (JStr i) else None.
Proof.
  intros Hf Hi. apply frame_fields_parse in Hf as [Hs Hp].
  unfold line_id. rewrite Hs, Hp. cbn [property]. rewrite Hi. reflexivity.
Qed.







Lemma callVapiAPI_request_requests w message config :
  requests (callVapiAPI_request w message config)
  = [mkRequest (publicKey config)
       (mkPayload (assistantId config) message true
          (if truthy (previousChatId w) then Some (previousChatId w) else None)
          (match assistantOverrides config with
           | Some text => JSON_parse text
           | None => None
           end))]
  /\ events (callVapiAPI_request w message config) = [].
Proof.
  unfold callVapiAPI_request.
  destruct (assistantOverrides config) as [text |]; [| split; reflexivity].
  destruct (JSON_parse text); split; reflexivity.
Qed.

Lemma sendMessage_start_sends w text key aid :
  chat_input w = Some text -> nonempty (trim text) = true ->
  isLoading w = false ->
  publicKey (getConfig w) = Some key -> assistantId (getConfig w) = Some aid ->
  let w2 :=
    render (set_isLoading true
              (set_input []
                 (set_messages (messages w ++ [mkMessage user (trim text)]) w))) in
  sendMessage_start w
  = send_awaits w2
      (dispatchEvent (message_event (mkMessage user (trim text)))
       :: callVapiAPI_request w2 (trim text) (getConfig w)).
Proof.
  intros Hi Ht Hl Hk Ha. cbv zeta. unfold sendMessage_start.
  rewrite Hi, Ht, Hl, Hk, Ha. reflexivity.
Qed.

End WellFormedStreams.

Lemma events_app a b : events (a ++ b) = events a ++ events b.
Proof. apply omap_app. Qed.

Lemma events_dispatch e l : events (dispatchEvent e :: l) = e :: events l.
Proof. reflexivity. Qed.

Lemma requests_dispatch e l : requests (dispatchEvent e :: l) = requests l.
Proof. reflexivity. Qed.

Section Turns.
Context `{NumberHost}.



(** C9. The chat id that [callVapiAPI] returns is the id of the first frame
    of the stream that offers a non-empty one: no line before it offers an
    id, and whatever ids the lines after it carry are ignored. *)
Theorem first_id_wins
  (w : Widget) (chunks pre post : list jsstring) (f i : jsstring)
  (ms : list (jsstring * JsValue)) :
  stream_frames chunks = pre ++ f :: post ->
  Forall (fun l => line_id l = None) pre ->
  frame_fields f = Some ms ->
  get_member (lit "id") ms = Some (JStr i) ->
  i <> [] ->
  exists w' reply,
    callVapiAPI_response w (http_ok chunks true) = (w', inr (mkStream reply (JStr i))).
Proof.
  intros Hfr Hpre Hf Hid Hne. unfold callVapiAPI_response.
  pose proof (fold_process_line_stream (stream_frames chunks) w stream_start) as Hs.
  rewrite <- read_stream_frames in Hs.
  destruct (read_stream w chunks) as [w' s]. cbn [snd] in Hs. subst s.
  eexists _, _. f_equal. f_equal. f_equal.
  cbn [stream_start chatId truthy]. rewrite Hfr.
  assert (Ho : omap line_id pre = []).
  { clear -Hpre. induction Hpre as [| l rest Hl _ IH]; [reflexivity |].
    change (omap line_id (l :: rest))
      with (match line_id l with
            | Some y => y :: omap line_id rest
            | None => omap line_id rest
            end).
    rewrite Hl. exact IH. }
  rewrite omap_app, Ho. cbn [app].
  change (omap line_id (f :: post))
    with (match line_id f with
          | Some y => y :: omap line_id post
          | None => omap line_id post
          end).
  rewrite (line_id_string f ms i Hf Hid).
  destruct i; [congruence | reflexivity].
Qed.

End Turns.

(** ** The JSON automaton: prefixes and suffixes of a valid text *)

Import Json.

Lemma run_app s x y :
  run s (x ++ y) = match run s x with Some s' => run s' y | None => None end.
Proof.
  revert s. induction x as [| c x IH]; intros s; [reflexivity |].
  cbn [app run]. destruct (step s c); [apply IH | reflexivity].
Qed.

Lemma complete_mode v st s : complete v st = Some s -> mode s = MAfter.
Proof.
  destruct st as [| [done | done [k |]] st']; cbn; intros [= <-]; reflexivity.
Qed.

Lemma finish_terminal s v : finish s = Some v -> terminal s = true.
Proof.
  unfold finish, terminal. destruct (mode s), (stack s); try discriminate; reflexivity.
Qed.

Lemma num_step_brace ns : num_step ns 125 = None.
Proof. destruct ns; reflexivity. Qed.

Lemma step_after_top res c s :
  step_after [] res c = Some s -> terminal s = true /\ c <> 125.
Proof.
  unfold step_after. destruct (is_ws c) eqn:Hw.
  - intros [= <-]. split; [reflexivity |]. intros ->. discriminate.
  - destruct (c =? 44); [discriminate |]. destruct (c =? 93); [discriminate |].
    destruct (c =? 125); discriminate.
Qed.

Lemma step_terminal s c s' :
  terminal s = true -> step s c = Some s' -> terminal s' = true /\ c <> 125.
Proof.
  unfold terminal, step. destruct (stack s) eqn:Hst; [| discriminate].
  destruct (mode s) eqn:Hm; try discriminate; intros _.
  - apply step_after_top.
  - destruct (num_step ns c) as [ns' |] eqn:Hn.
    + intros [= <-]. cbn. split; [reflexivity |]. intros ->.
      rewrite num_step_brace in Hn. discriminate.
    + destruct (num_accepting ns); [| discriminate]. cbn [complete stack result].
      apply step_after_top.
Qed.

Lemma run_terminal t : forall s s',
  terminal s = true -> run s t = Some s' -> terminal s' = true /\ 125 ∉ t.
Proof.
  induction t as [| c t IH]; intros s s' Ht.
  - intros [= <-]. split; [exact Ht |]. apply not_elem_of_nil.
  - cbn [run]. destruct (step s c) as [s1 |] eqn:Hs; [| discriminate].
    destruct (step_terminal s c s1 Ht Hs) as [Ht1 Hc]. intros Hr.
    destruct (IH s1 s' Ht1 Hr) as [Ht' Hn]. split; [exact Ht' |].
    intros Hin. apply elem_of_cons in Hin as [Heq | Hin]; [congruence | auto].
Qed.

(** Nothing that contains a closing brace can follow a complete JSON text. *)
Lemma parse_prefix_closed p t v :
  JSON_parse p = Some v -> 125 ∈ t -> JSON_parse (p ++ t) = None.
Proof.
  unfold JSON_parse, parse. intros Hp Hin. rewrite run_app.
  destruct (run init p) as [sp |]; [| discriminate].
  apply finish_terminal in Hp.
  destruct (run sp t) as [sf |] eqn:Hr; [| reflexivity].
  destruct (run_terminal t sp sf Hp Hr) as [_ Hn]. contradiction.
Qed.

Ltac split_ifs :=
  repeat match goal with
         | |- context [if ?b then _ else _] => destruct b eqn:?
         end.

Lemma literal_text_letter l pos x :
  literal_text l !! pos = Some x -> x <> 34 /\ x <> 92 /\ x <> 100.
Proof.
  destruct l; do 6 (destruct pos as [| pos]; [intros [= <-]; repeat split; discriminate |]);
    discriminate.
Qed.

Lemma step_after_outside st res c s :
  step_after st res c = Some s -> outside s = true.
Proof.
  unfold step_after. split_ifs; try discriminate.
  - intros [= <-]. reflexivity.
  - destruct st as [| [done | done [k |]] st']; try discriminate; intros [= <-]; reflexivity.
  - destruct st as [| [done | done k] st']; try discriminate.
    intros Hc. apply complete_mode in Hc. unfold outside. rewrite Hc. reflexivity.
  - destruct st as [| [done | done [k |]] st']; try discriminate.
    intros Hc. apply complete_mode in Hc. unfold outside. rewrite Hc. reflexivity.
Qed.

Lemma complete_outside v st s : complete v st = Some s -> outside s = true.
Proof. intros Hc. apply complete_mode in Hc. unfold outside. rewrite Hc. reflexivity. Qed.

(** Outside a string, only a quote leads into one. *)
Lemma step_outside s c s' :
  outside s = true -> c <> 34 -> step s c = Some s' -> outside s' = true.
Proof.
  unfold outside at 1, step. intros Ho Hc.
  destruct (mode s) eqn:Hm; try discriminate.
  - unfold step_value. split_ifs; try discriminate;
      try (intros [= <-]; reflexivity).
    + apply N.eqb_eq in Heqb2. congruence.
    + destruct (stack s) as [| [[| ? ?] | ? ?] ?]; try discriminate. apply complete_outside.
  - unfold step_key. split_ifs; try discriminate; try (intros [= <-]; reflexivity).
    + apply N.eqb_eq in Heqb0. congruence.
    + destruct (stack s) as [| [? | [| ? ?] [? |]] ?]; try discriminate. apply complete_outside.
  - split_ifs; try discriminate; intros [= <-]; reflexivity.
  - apply step_after_outside.
  - destruct (num_step ns c); [intros [= <-]; reflexivity |].
    destruct (num_accepting ns); [| discriminate].
    destruct (complete _ _); [| discriminate]. apply step_after_outside.
  - destruct (literal_text l !! pos); [| discriminate].
    split_ifs; try discriminate; [apply complete_outside | intros [= <-]; reflexivity].
Qed.

(** Outside a string, a quote leads into one and a backslash is refused. *)
Lemma step_outside_quote s s' :
  outside s = true -> step s 34 = Some s' -> in_string s' = true.
Proof.
  unfold outside, step. intros Ho.
  destruct (mode s) eqn:Hm; try discriminate.
  - cbn. intros [= <-]. reflexivity.
  - cbn. intros [= <-]. reflexivity.
  - destruct (num_step ns 34) eqn:Hn; [destruct ns; discriminate |].
    destruct (num_accepting ns); [| discriminate].
    destruct (complete _ _); discriminate.
  - destruct (literal_text l !! pos) as [x |] eqn:Hx; [| discriminate].
    apply literal_text_letter in Hx as (Hq & _).
    destruct (N.eqb_spec 34 x); [congruence | discriminate].
Qed.

Lemma step_outside_backslash s : outside s = true -> step s 92 = None.
Proof.
  unfold outside, step. intros Ho.
  destruct (mode s) eqn:Hm; try discriminate; try reflexivity.
  - destruct (num_step ns 92) eqn:Hn; [destruct ns; discriminate |].
    destruct (num_accepting ns); [| reflexivity].
    destruct (complete _ _); reflexivity.
  - destruct (literal_text l !! pos) as [x |] eqn:Hx; [| reflexivity].
    apply literal_text_letter in Hx as (_ & Hb & _).
    destruct (N.eqb_spec 92 x); [congruence | reflexivity].
Qed.

(** Inside a string, a quote leads out, and any other accepted code unit
    but the backslash stays inside. *)
Lemma step_in_string s c s' :
  in_string s = true -> step s c = Some s' ->
  if c =? 34 then outside s' = true
  else c <> 92 -> in_string s' = true.
Proof.
  unfold in_string at 1, step. destruct (mode s) eqn:Hm; try discriminate. intros _.
  destruct (c =? 34).
  - unfold end_string. destruct key.
    + destruct (stack s) as [| [? | ? [? |]] ?]; try discriminate. intros [= <-]. reflexivity.
    + apply complete_outside.
  - destruct (N.eqb_spec c 92); [intros _ Hc; congruence |].
    destruct (c <? 32); [discriminate |]. intros [= <-] _. reflexivity.
Qed.

(** Two runs over the same text, one starting inside a string and one
    outside, are never both outside afterwards. *)
Lemma run_opposite t : forall a b a' b',
  (in_string a = true /\ outside b = true)
  \/ (outside a = true /\ in_string b = true) ->
  run a t = Some a' -> run b t = Some b' ->
  (in_string a' = true /\ outside b' = true)
  \/ (outside a' = true /\ in_string b' = true).
Proof.
  assert (Hstep : forall a b c a' b',
            in_string a = true -> outside b = true ->
            step a c = Some a' -> step b c = Some b' ->
            (in_string a' = true /\ outside b' = true)
            \/ (outside a' = true /\ in_string b' = true)).
  { intros a b c a' b' Ha Hb Hsa Hsb.
    pose proof (step_in_string a c a' Ha Hsa) as Hin.
    destruct (N.eqb_spec c 34) as [-> | Hq].
    - right. split; [exact Hin |]. apply (step_outside_quote b b' Hb Hsb).
    - destruct (N.eq_dec c 92) as [-> | Hbs].
      + rewrite (step_outside_backslash b Hb) in Hsb. discriminate.
      + left. split; [apply Hin; exact Hbs |]. apply (step_outside b c b' Hb Hq Hsb). }
  induction t as [| c t IH]; intros a b a' b' Hopp.
  - intros [= <-] [= <-]. exact Hopp.
  - cbn [run]. destruct (step a c) as [a1 |] eqn:Hsa; [| discriminate].
    destruct (step b c) as [b1 |] eqn:Hsb; [| discriminate].
    apply IH. destruct Hopp as [[Ha Hb] | [Ha Hb]].
    + apply (Hstep a b c a1 b1 Ha Hb Hsa Hsb).
    + destruct (Hstep b a c b1 a1 Hb Ha Hsb Hsa) as [[? ?] | [? ?]]; [right | left]; auto.
Qed.

Lemma finish_outside s v : finish s = Some v -> outside s = true /\ in_string s = false.
Proof.
  unfold finish, outside, in_string.
  destruct (mode s); try discriminate; split; reflexivity.
Qed.

(** Whatever the state before it, after the six code units of [data: ] the
    automaton is inside a string. *)
Lemma run_data_prefix s s' :
  run s (lit "data: ") = Some s' -> in_string s' = true.
Proof.
  change (lit "data: ") with [100; 97; 116; 97; 58; 32].
  destruct s as [m st res]. destruct m as [first | first | | | key acc | key acc
    | key acc todo code | ns acc | l pos].
  - cbn. destruct first; discriminate.
  - cbn. destruct first; discriminate.
  - discriminate.
  - discriminate.
  - cbn. intros [= <-]. reflexivity.
  - discriminate.
  - destruct todo as [| [| [| todo]]]; cbn; try discriminate; intros [= <-]; reflexivity.
  - cbn [run step mode stack].
    replace (num_step ns 100) with (@None NumState) by (destruct ns; reflexivity).
    destruct (num_accepting ns); [| discriminate].
    destruct (complete _ _); discriminate.
  - cbn [run step mode stack].
    destruct (literal_text l !! pos) as [x |] eqn:Hx; [| discriminate].
    apply literal_text_letter in Hx as (_ & _ & Hd).
    destruct (N.eqb_spec 100 x); [congruence | discriminate].
Qed.

(** What follows [data: ] inside a valid JSON text is never a valid JSON
    text itself. *)
Lemma parse_suffix_after_data x y v :
  JSON_parse (x ++ lit "data: " ++ y) = Some v -> JSON_parse y = None.
Proof.
  unfold JSON_parse, parse. rewrite run_app.
  destruct (run init x) as [s1 |]; [| discriminate]. rewrite run_app.
  destruct (run s1 (lit "data: ")) as [s2 |] eqn:Hd; [| discriminate].
  apply run_data_prefix in Hd.
  destruct (run s2 y) as [s3 |] eqn:H3; [| discriminate].
  intros Hf. destruct (run init y) as [s4 |] eqn:H4; [| reflexivity].
  destruct (finish s4) as [v' |] eqn:Hf4; [| reflexivity].
  exfalso. apply finish_outside in Hf as [Ho3 Hi3]. apply finish_outside in Hf4 as [Ho4 Hi4].
  destruct (run_opposite y s2 init s3 s4 (or_introl (conj Hd eq_refl)) H3 H4)
    as [[? ?] | [? ?]]; congruence.
Qed.

(** ** A frame cut by a chunk boundary *)

Lemma startsWith_app p : forall s, startsWith p s = true -> s = p ++ drop (length p) s.
Proof.
  induction p as [| a p IH]; intros s; [reflexivity |].
  destruct s as [| b s]; [discriminate |]. cbn [startsWith].
  intros Hs. apply andb_true_iff in Hs as [Hab Hps].
  apply N.eqb_eq in Hab as ->. cbn [length drop app]. f_equal. apply IH. exact Hps.
Qed.

Lemma data_prefix_inside a y json :
  a <> [] -> a ++ lit "data: " ++ y = lit "data: " ++ json ->
  exists x, json = x ++ lit "data: " ++ y.
Proof.
  change (lit "data: ") with [100; 97; 116; 97; 58; 32]. intros Ha.
  destruct a as [| a1 [| a2 [| a3 [| a4 [| a5 [| a6 x]]]]]]; try congruence;
    cbn [app]; try (intros [=]; congruence).
  intros [= _ _ _ _ _ _ Hx]. exists x. symmetry. exact Hx.
Qed.

Lemma trim_start_keeps_last x c :
  is_js_space c = false -> trim_start (x ++ [c]) <> [].
Proof.
  intros Hc. induction x as [| d x IH]; cbn [app trim_start].
  - rewrite Hc. discriminate.
  - destruct (is_js_space d); [exact IH | discriminate].
Qed.

(** A text that begins with a code unit which is not white space does not
    trim to the empty string. *)
Lemma trim_nonblank c s : is_js_space c = false -> nonempty (trim (c :: s)) = true.
Proof.
  intros Hc. unfold trim. cbn [trim_start]. rewrite Hc. cbn [rev].
  pose proof (trim_start_keeps_last (rev s) c Hc) as Hne.
  destruct (trim_start (rev s ++ [c])) as [| d r]; [congruence |].
  cbn [rev]. destruct (rev r); reflexivity.
Qed.

Section SplitFrames.
Context `{NumberHost}.

Lemma fragment_head_ignored ws a b json v :
  b <> [] -> a ++ b = lit "data: " ++ json ->
  JSON_parse json = Some v -> last json = Some 125 ->
  process_line ws a = ws.
Proof.
  intros Hb Hab Hp Hlast.
  destruct (startsWith (lit "data: ") a) eqn:Hs.
  - apply process_line_malformed. unfold slice.
    apply startsWith_app in Hs. change (length (lit "data: ")) with 6%nat in Hs.
    set (p := drop 6 a) in *. rewrite Hs, <- app_assoc in Hab.
    apply app_inv_head in Hab.
    destruct (JSON_parse p) as [v' |] eqn:Hpp; [| reflexivity].
    assert (Hin : 125 ∈ b).
    { rewrite <- Hab, last_app in Hlast.
      destruct (last b) as [c |] eqn:Hl.
      - injection Hlast as ->. apply last_Some_elem_of. exact Hl.
      - apply last_None in Hl. congruence. }
    rewrite <- Hab, (parse_prefix_closed p b v' Hpp Hin) in Hp. discriminate.
  - unfold process_line. destruct ws as [w s]. rewrite Hs. reflexivity.
Qed.

Lemma fragment_tail_ignored ws a b json v :
  a <> [] -> a ++ b = lit "data: " ++ json ->
  JSON_parse json = Some v ->
  process_line ws b = ws.
Proof.
  intros Ha Hab Hp.
  destruct (startsWith (lit "data: ") b) eqn:Hs.
  - apply process_line_malformed. unfold slice.
    apply startsWith_app in Hs. change (length (lit "data: ")) with 6%nat in Hs.
    set (y := drop 6 b) in *. rewrite Hs in Hab.
    destruct (data_prefix_inside a y json Ha Hab) as [x ->].
    apply (parse_suffix_after_data x y v Hp).
  - unfold process_line. destruct ws as [w s]. rewrite Hs. reflexivity.
Qed.

(** C10. Lines are cut per chunk, and nothing is carried from one chunk to
    the next.  When a frame [data: {...}] is cut into two non-empty pieces
    by a chunk boundary, the loop body ignores either piece (each fails the
    prefix test or the parse), so the stream gives what it gives without
    that frame, whereas in one piece the frame has its effect; the other
    lines of the two chunks are processed as they are. *)
Theorem split_frame_lost
  (w : Widget) (ws : Widget * Stream) (pre post : list jsstring)
  (before a b after json : jsstring) (v : JsValue) (finished : bool) :
  line_start before -> line_end after ->
  a <> [] -> b <> [] ->
  a ++ b = lit "data: " ++ json ->
  JSON_parse json = Some v ->
  last json = Some 125 ->
  10 ∉ json ->
  process_line ws a = ws
  /\ process_line ws b = ws
  /\ process_chunk (process_chunk ws (before ++ a)) (b ++ after)
     = process_chunk (process_chunk ws before) after
  /\ process_chunk ws (before ++ (a ++ b) ++ after)
     = process_chunk (process_line (process_chunk ws before) (a ++ b)) after
  /\ read_stream w (pre ++ (before ++ a) :: (b ++ after) :: post)
     = read_stream w (pre ++ before :: after :: post)
  /\ sendMessage w (http_ok (pre ++ (before ++ a) :: (b ++ after) :: post) finished)
     = sendMessage w (http_ok (pre ++ before :: after :: post) finished).
Proof.
  intros Hbefore Hafter Ha Hb Hab Hp Hlast Hnl.
  assert (Hla : forall ws', process_line ws' a = ws')
    by (intros ws'; apply (fragment_head_ignored ws' a b json v); assumption).
  assert (Hlb : forall ws', process_line ws' b = ws')
    by (intros ws'; apply (fragment_tail_ignored ws' a b json v); assumption).
  assert (Hn : 10 ∉ a ++ b).
  { rewrite Hab. intros Hin. apply elem_of_app in Hin as [Hin | Hin]; [| auto].
    revert Hin. change (lit "data: ") with [100; 97; 116; 97; 58; 32].
    rewrite !elem_of_cons, elem_of_nil. intuition discriminate. }
  assert (Hna : 10 ∉ a) by (intros Hin; apply Hn, elem_of_app; auto).
  assert (Hnb : 10 ∉ b) by (intros Hin; apply Hn, elem_of_app; auto).
  assert (Hca : forall ws', process_chunk ws' (before ++ a) = process_chunk ws' before).
  { intros ws'.
    pose proof (process_chunk_drop_line ws' before a [] Hbefore (or_introl eq_refl) Hna Hla)
      as Hd.
    rewrite !app_nil_r in Hd. exact Hd. }
  assert (Hcb : forall ws', process_chunk ws' (b ++ after) = process_chunk ws' after).
  { intros ws'.
    exact (process_chunk_drop_line ws' [] b after (or_introl eq_refl) Hafter Hnb Hlb). }
  assert (Hr : forall w', read_stream w' (pre ++ (before ++ a) :: (b ++ after) :: post)
                          = read_stream w' (pre ++ before :: after :: post)).
  { intros w'. rewrite !read_stream_app. cbn [fold_left]. rewrite Hca, Hcb. reflexivity. }
  split; [apply Hla |]. split; [apply Hlb |].
  split; [rewrite Hca, Hcb; reflexivity |].
  split.
  - unfold process_chunk.
    rewrite (chunk_lines_at before (a ++ b) after Hbefore Hafter), !fold_left_app.
    f_equal. rewrite (chunk_lines_single (a ++ b) Hn).
    assert (Hne : nonempty (trim (a ++ b)) = true).
    { rewrite Hab. apply trim_nonblank. reflexivity. }
    rewrite Hne. reflexivity.
  - split; [apply Hr |]. apply sendMessage_same_stream. exact Hr.
Qed.

End SplitFrames.

(** * Further properties of the widget *)

(** ** A send that fails *)

Lemma requests_app a b : requests (a ++ b) = requests a ++ requests b.
Proof. apply omap_app. Qed.

Section FailedSends.
Context `{NumberHost}.

Lemma callVapiAPI_response_thrown w o e :
  thrown o = Some e ->
  snd (callVapiAPI_response w o) = inl e
  /\ same_state w (fst (callVapiAPI_response w o)).
Proof.
  destruct o as [| status | chunks [|]]; cbn [thrown]; try discriminate;
    intros [= <-]; cbn [callVapiAPI_response].
  - split; [reflexivity | apply same_state_refl].
  - split; [reflexivity | apply same_state_refl].
  - pose proof (fold_process_line_state (stream_frames chunks) w stream_start) as Hs.
    rewrite <- read_stream_frames in Hs.
    destruct (read_stream w chunks) as [w' s]. split; [reflexivity | exact Hs].
Qed.

(** X1. When the request fails (the fetch rejects, the status is not ok, or a
    read of the body rejects), the send still runs to its end: the user
    message stays, a fixed apology is appended as the assistant message
    (whatever had been streamed is dropped), a [message] and then an
    [error] event are dispatched, the chat id is kept and [isLoading] is
    cleared. *)
Theorem failed_send_reports
  (w : Widget) (text key aid : jsstring) (o : FetchOutcome) (e : Failure) :
  chat_input w = Some text ->
  nonempty (trim text) = true ->
  isLoading w = false ->
  publicKey (getConfig w) = Some key ->
  assistantId (getConfig w) = Some aid ->
  thrown o = Some e ->
  let w' := fst (sendMessage w o) in
  messages w'
  = messages w
    ++ [mkMessage user (trim text);
        mkMessage assistant
          (lit "Sorry, I encountered an error. Please try again.")]
  /\ events (snd (sendMessage w o))
     = [message_event (mkMessage user (trim text)); error_event e]
  /\ length (requests (snd (sendMessage w o))) = 1%nat
  /\ previousChatId w' = previousChatId w
  /\ isLoading w' = false.
Proof.
  intros Hi Ht Hl Hk Ha Ho. cbv zeta. unfold sendMessage.
  rewrite (sendMessage_start_sends w text key aid Hi Ht Hl Hk Ha). cbv zeta.
  set (w2 := render _).
  assert (H2 : messages w2 = messages w ++ [mkMessage user (trim text)]
               /\ previousChatId w2 = previousChatId w).
  { subst w2. unfold render. cbn [messages previousChatId set_shadowRoot set_isLoading].
    destruct (set_input_state [] (set_messages (messages w ++ [mkMessage user (trim text)]) w))
      as (_ & _ & -> & -> & _). split; reflexivity. }
  destruct H2 as [Hm2 Hp2].
  destruct (callVapiAPI_request_requests w2 (trim text) (getConfig w)) as [Hrq Hev].
  unfold sendMessage_finish.
  destruct (callVapiAPI_response_thrown w2 o e Ho) as [Hr (_ & _ & Hm3 & _ & Hp3 & _)].
  destruct (callVapiAPI_response w2 o) as [w3 r]. cbn [fst snd] in Hr, Hm3, Hp3. subst r.
  cbn [fst snd]. unfold render. cbn [messages previousChatId isLoading set_shadowRoot
    set_isLoading set_messages].
  rewrite Hm3, Hm2, <- app_assoc, Hp3, Hp2.
  split; [reflexivity |].
  split; [rewrite events_app, events_dispatch, Hev; reflexivity |].
  split; [| split; reflexivity].
  rewrite requests_app, requests_dispatch, Hrq. reflexivity.
Qed.

End FailedSends.

(** ** What no sequence of calls undoes *)

Section RunInvariants.
Context `{NumberHost}.

Lemma keeps_same w w' effects :
  messages w' = messages w -> previousChatId w' = previousChatId w ->
  consentGiven w' = consentGiven w -> isLoading w' = isLoading w ->
  filter (fun e => announces_message e = true) (events effects) = [] ->
  keeps w w' effects.
Proof.
  intros Hm Hp Hc Hl He.
  split; [exists []; rewrite app_nil_r, He; split; [exact Hm | reflexivity] |].
  rewrite Hp, Hc, Hl. repeat split; auto.
Qed.

Lemma keeps_refl w effects :
  filter (fun e => announces_message e = true) (events effects) = [] ->
  keeps w w effects.
Proof. intros He. apply keeps_same; auto. Qed.

Lemma keeps_trans a b c e1 e2 :
  keeps a b e1 -> keeps b c e2 -> keeps a c (e1 ++ e2).
Proof.
  intros ((m1 & Hm1 & Hl1) & Hp1 & Hc1 & Hi1) ((m2 & Hm2 & Hl2) & Hp2 & Hc2 & Hi2).
  split; [| repeat split; auto].
  exists (m1 ++ m2). split; [rewrite Hm2, Hm1, app_assoc; reflexivity |].
  rewrite events_app, filter_app, !length_app. congruence.
Qed.

Lemma sendMessage_keeps w o :
  keeps w (fst (sendMessage w o)) (snd (sendMessage w o)).
Proof.
  unfold sendMessage, sendMessage_start.
  destruct (chat_input w) as [text |]; [| apply keeps_refl; reflexivity].
  destruct (negb (nonempty (trim text)) || isLoading w) eqn:Hg;
    [apply keeps_refl; reflexivity |].
  destruct (publicKey (getConfig w)) as [key |]; [| apply keeps_refl; reflexivity].
  destruct (assistantId (getConfig w)) as [aid |]; [| apply keeps_refl; reflexivity].
  set (w2 := render _).
  assert (H2 : messages w2 = messages w ++ [mkMessage user (trim text)]
               /\ previousChatId w2 = previousChatId w
               /\ consentGiven w2 = consentGiven w).
  { subst w2. unfold render.
    cbn [messages previousChatId consentGiven set_shadowRoot set_isLoading].
    destruct (set_input_state [] (set_messages (messages w ++ [mkMessage user (trim text)]) w))
      as (_ & _ & -> & -> & -> & _). repeat split. }
  destruct H2 as (Hm2 & Hp2 & Hc2).
  destruct (callVapiAPI_request_requests w2 (trim text) (getConfig w)) as [_ Hev].
  unfold sendMessage_finish.
  assert (Hst : same_state w2 (fst (callVapiAPI_response w2 o))).
  { destruct o as [| status | chunks finished]; cbn [callVapiAPI_response];
      try apply same_state_refl.
    pose proof (fold_process_line_state (stream_frames chunks) w2 stream_start) as Hs.
    rewrite <- read_stream_frames in Hs.
    destruct (read_stream w2 chunks) as [w3 s]. destruct finished; exact Hs. }
  destruct (callVapiAPI_response w2 o) as [w3 r]. cbn [fst] in Hst.
  destruct Hst as (_ & _ & Hm3 & _ & Hp3 & Hc3).
  destruct r as [e | response]; [| destruct (truthy (chatId response)) eqn:Hid];
    cbn [fst snd]; unfold render;
    (split; [| split; [| split; [| reflexivity]]]);
    cbn [messages previousChatId consentGiven set_shadowRoot set_isLoading
         set_messages set_previousChatId];
    try (eexists [_; _]; rewrite Hm3, Hm2, <- app_assoc; split; [reflexivity |];
         rewrite events_app, events_dispatch, Hev; reflexivity);
    try (rewrite Hp3, Hp2; tauto); try (rewrite Hc3, Hc2; tauto).
  intros _. exact Hid.
Qed.

Lemma toggleChat_keeps state w :
  keeps w (fst (toggleChat state w)) (snd (toggleChat state w)).
Proof.
  unfold toggleChat. cbn [fst snd].
  split; [exists []; rewrite app_nil_r; split; [reflexivity |] | repeat split; auto].
  destruct (isOpen (render _)); reflexivity.
Qed.

Lemma run_op_keeps w st op :
  keeps w (fst (fst (run_op (w, st) op))) (snd (run_op (w, st) op)).
Proof.
  destruct op as [state | text | o | name value | name |]; cbn [run_op].
  - pose proof (toggleChat_keeps state w) as Hk.
    destruct (toggleChat state w). exact Hk.
  - destruct (set_input_state text w) as (_ & Hl & Hm & Hp & Hc & _).
    cbn [fst snd]. split; [exists []; rewrite app_nil_r; split; [exact Hm | reflexivity] |].
    rewrite Hp, Hc, Hl. repeat split; auto.
  - pose proof (sendMessage_keeps w o) as Hk.
    destruct (sendMessage w o). exact Hk.
  - cbn [fst snd]. unfold setAttribute, attributeChangedCallback.
    repeat destruct (bool_decide _); apply keeps_same; reflexivity.
  - cbn [fst snd]. unfold removeAttribute, attributeChangedCallback.
    repeat destruct (bool_decide _); apply keeps_same; reflexivity.
  - unfold giveConsent. destruct (setItem _ _ _); cbn [fst snd];
      (split; [exists []; rewrite app_nil_r; split; reflexivity | repeat split; auto]).
Qed.

(** X2. Over any sequence of calls on the widget (toggles, writes to the input,
    sends with any outcome, attribute changes, the consent action) the
    message list only grows, and by exactly one message per [message] or
    [error] event dispatched; a chat id once held is never lost; consent
    once given is never withdrawn; and a widget that was not loading is not
    left loading. *)
Theorem run_never_undoes (w : Widget) (st : Storage) (ops : list Op) :
  let '(w', st', effects) := run_ops (w, st) ops in
  (exists more,
     messages w' = messages w ++ more
     /\ length more
        = length (filter (fun e => announces_message e = true) (events effects)))
  /\ (truthy (previousChatId w) = true -> truthy (previousChatId w') = true)
  /\ (consentGiven w = true -> consentGiven w' = true)
  /\ (isLoading w = false -> isLoading w' = false).
Proof.
  revert w st. induction ops as [| op rest IH]; intros w st.
  - cbn [run_ops]. apply (keeps_refl w []). reflexivity.
  - cbn [run_ops]. pose proof (run_op_keeps w st op) as H1.
    destruct (run_op (w, st) op) as [[w1 st1] e1]. cbn [fst snd] in H1.
    specialize (IH w1 st1). destruct (run_ops (w1, st1) rest) as [[w2 st2] e2].
    exact (keeps_trans w w1 w2 e1 e2 H1 IH).
Qed.

End RunInvariants.

(** ** Chunk boundaries at line feeds *)

Section Chunking.
Context `{NumberHost}.

Lemma process_chunk_line_feed ws x y :
  process_chunk ws (x ++ 10 :: y) = process_chunk (process_chunk ws x) y.
Proof. unfold process_chunk. rewrite chunk_lines_app, fold_left_app. reflexivity. Qed.

Lemma read_stream_same_frames w chunks chunks' :
  stream_frames chunks = stream_frames chunks' ->
  read_stream w chunks = read_stream w chunks'.
Proof. intros Hf. rewrite !read_stream_frames, Hf. reflexivity. Qed.

(** X3. Where the reader cuts the body does not matter as long as it cuts after
    a line feed: a chunk may be delivered in two pieces cut there, and empty
    chunks may come in between, without any change to the outcome of the
    send.  (Only a cut inside a line loses that line.) *)
Theorem chunking_at_line_feeds
  (w : Widget) (pre post : list jsstring) (x y : jsstring) (finished : bool) :
  read_stream w (pre ++ (x ++ 10 :: y) :: post)
  = read_stream w (pre ++ (x ++ [10]) :: y :: post)
  /\ read_stream w (pre ++ [] :: post) = read_stream w (pre ++ post)
  /\ sendMessage w (http_ok (pre ++ (x ++ 10 :: y) :: post) finished)
     = sendMessage w (http_ok (pre ++ (x ++ [10]) :: [] :: y :: post) finished).
Proof.
  assert (H1 : forall l, stream_frames (pre ++ (x ++ 10 :: y) :: l)
                         = stream_frames (pre ++ (x ++ [10]) :: y :: l)).
  { intros l. unfold stream_frames. rewrite !map_app, !concat_app. f_equal.
    cbn [map concat]. rewrite chunk_lines_app, (chunk_lines_app x []), chunk_lines_nil.
    rewrite app_nil_r, app_assoc. reflexivity. }
  assert (H2 : forall a l, stream_frames (a ++ [] :: l) = stream_frames (a ++ l)).
  { intros a l. unfold stream_frames. rewrite !map_app, !concat_app. reflexivity. }
  split; [apply read_stream_same_frames, H1 |].
  split; [apply read_stream_same_frames, H2 |].
  apply sendMessage_same_stream. intros w'. apply read_stream_same_frames.
  rewrite H1. change (pre ++ (x ++ [10]) :: [] :: y :: post)
    with (pre ++ [x ++ [10]] ++ [] :: y :: post).
  rewrite app_assoc, H2, <- app_assoc. reflexivity.
Qed.

End Chunking.

(** ** Which lines count *)

Section LinesThatCount.
Context `{NumberHost}.

(** X4. The loop body changes something only on a line that is [data: ]
    followed by a JSON object with a truthy [id] or a truthy [delta]: any
    other line (another prefix, text that does not parse, [null], a number,
    a string, an array, an object without those members) is passed over. *)
Theorem only_object_frames_count (ws : Widget * Stream) (line : jsstring) :
  process_line ws line = ws
  \/ exists ms,
       frame_fields line = Some ms
       /\ ((exists v, get_member (lit "id") ms = Some v /\ truthy v = true)
           \/ (exists d, get_member (lit "delta") ms = Some d /\ truthy d = true)).
Proof.
  destruct ws as [w s]. unfold process_line, frame_fields.
  destruct (startsWith _ line); [| left; reflexivity].
  destruct (JSON_parse _) as [data |]; [| left; reflexivity].
  destruct data as [| b | l | str | items | ms]; cbn [property];
    try (left; destruct s; reflexivity).
  destruct (get_member (lit "delta") ms) as [d |] eqn:Hd.
  - destruct (truthy d) eqn:Htd; [right; exists ms; eauto 6 |].
    destruct (get_member (lit "id") ms) as [v |] eqn:Hv.
    + destruct (truthy v) eqn:Htv; [right; exists ms; eauto 6 |].
      left. destruct s; reflexivity.
    + left. destruct s; reflexivity.
  - destruct (get_member (lit "id") ms) as [v |] eqn:Hv.
    + destruct (truthy v) eqn:Htv; [right; exists ms; eauto 6 |].
      left. destruct s; reflexivity.
    + left. destruct s; reflexivity.
Qed.

(** X5. Whatever the chunks hold, well-formed or not, the accumulated content
    only grows at its end, and a chat id once captured is not replaced. *)
Theorem stream_only_grows (ws : Widget * Stream) (chunks : list jsstring) :
  let s := snd ws in
  let s' := snd (fold_left process_chunk chunks ws) in
  (exists more, fullContent s' = fullContent s ++ more)
  /\ (truthy (chatId s) = true -> chatId s' = chatId s)
  /\ (chatId s' = chatId s \/ truthy (chatId s') = true)
  /\ same_state (fst ws) (fst (fold_left process_chunk chunks ws)).
Proof.
  destruct ws as [w s]. cbv zeta. cbn [fst snd].
  assert (Hf : fold_left process_chunk chunks (w, s)
               = fold_left process_line (stream_frames chunks) (w, s)).
  { unfold stream_frames. generalize (w, s).
    induction chunks as [| c rest IH]; intros p; [reflexivity |].
    cbn [fold_left map concat]. rewrite fold_left_app, IH. reflexivity. }
  rewrite Hf, fold_process_line_stream. cbn [fullContent chatId].
  split; [eauto |]. split; [intros ->; reflexivity |].
  split; [| apply fold_process_line_state].
  destruct (truthy (chatId s)) eqn:Ht; [left; reflexivity |].
  destruct (head (omap line_id (stream_frames chunks))) as [v |] eqn:Hh;
    [| left; reflexivity].
  right. apply head_Some_elem_of, list_elem_of_omap in Hh as (l & _ & Hl).
  apply (line_id_truthy l v Hl).
Qed.

End LinesThatCount.

(** ** White space at the end of a line *)

Lemma literal_text_not_ws l pos x :
  literal_text l !! pos = Some x -> is_ws x = false.
Proof.
  destruct l; do 6 (destruct pos as [| pos]; [intros [= <-]; reflexivity |]);
    discriminate.
Qed.

Lemma finish_after_ws s c :
  is_ws c = true ->
  match step s c with Some s' => finish s' | None => None end = finish s.
Proof.
  intros Hc.
  assert (Hcases : c = 32 \/ c = 9 \/ c = 10 \/ c = 13).
  { unfold is_ws in Hc. rewrite !orb_true_iff, !N.eqb_eq in Hc. tauto. }
  destruct s as [m st res]. unfold step, finish. cbn [mode stack result].
  destruct m as [first | first | | | key acc | key acc | key acc todo code | ns acc | l pos].
  - unfold step_value. rewrite Hc. reflexivity.
  - unfold step_key. rewrite Hc. reflexivity.
  - rewrite Hc. reflexivity.
  - unfold step_after. rewrite Hc. reflexivity.
  - destruct Hcases as [-> | [-> | [-> | ->]]]; reflexivity.
  - destruct Hcases as [-> | [-> | [-> | ->]]]; reflexivity.
  - destruct Hcases as [-> | [-> | [-> | ->]]]; reflexivity.
  - replace (num_step ns c) with (@None NumState)
      by (destruct Hcases as [-> | [-> | [-> | ->]]]; destruct ns; reflexivity).
    destruct (num_accepting ns); [| destruct st; reflexivity].
    destruct st as [| [done | done [k |]] st']; cbn [complete stack result];
      unfold step_after; rewrite ?Hc; reflexivity.
  - destruct (literal_text l !! pos) as [x |] eqn:Hx; [| reflexivity].
    assert (Hne : (c =? x) = false).
    { apply N.eqb_neq. intros ->. apply literal_text_not_ws in Hx. congruence. }
    rewrite Hne. reflexivity.
Qed.

(** JSON white space after a text changes nothing about how it parses. *)
Lemma parse_trailing_ws text c :
  is_ws c = true -> JSON_parse (text ++ [c]) = JSON_parse text.
Proof.
  intros Hc. unfold JSON_parse, parse. rewrite run_app.
  destruct (run init text) as [s |]; [| reflexivity].
  cbn [run]. pose proof (finish_after_ws s c Hc) as Hf.
  destruct (step s c); exact Hf.
Qed.

Lemma startsWith_snoc p : forall l c,
  startsWith p (l ++ [c]) = true -> startsWith p l = false -> l ++ [c] = p.
Proof.
  induction p as [| a p IH]; intros l c; [destruct l; discriminate |].
  destruct l as [| b l]; cbn [app startsWith].
  - intros Hs _. apply andb_true_iff in Hs as [Hac Hp].
    apply N.eqb_eq in Hac as ->. destruct p; [reflexivity | discriminate].
  - intros Hs Hn. apply andb_true_iff in Hs as [Hab Hp].
    rewrite Hab in Hn. apply N.eqb_eq in Hab as ->. f_equal. apply IH; assumption.
Qed.

Lemma startsWith_extend p : forall l y, startsWith p l = true -> startsWith p (l ++ y) = true.
Proof.
  induction p as [| a p IH]; intros l y; [reflexivity |].
  destruct l as [| b l]; [discriminate |]. cbn [app startsWith].
  intros Hs. apply andb_true_iff in Hs as [-> Hp]. apply IH. exact Hp.
Qed.

Lemma trim_start_snoc l c :
  is_js_space c = true ->
  trim_start (l ++ [c]) = match trim_start l with [] => [] | t => t ++ [c] end.
Proof.
  intros Hc. induction l as [| d l IH]; cbn [app trim_start].
  - rewrite Hc. reflexivity.
  - destruct (is_js_space d); [exact IH | reflexivity].
Qed.

(** White space at the end of a text is trimmed away. *)
Lemma trim_snoc l c : is_js_space c = true -> trim (l ++ [c]) = trim l.
Proof.
  intros Hc. unfold trim. rewrite (trim_start_snoc l c Hc).
  destruct (trim_start l) as [| d t]; [reflexivity |].
  rewrite rev_app_distr. cbn [rev app trim_start]. rewrite Hc. reflexivity.
Qed.

Section TrailingSpace.
Context `{NumberHost}.

Lemma process_line_trailing_ws ws line c :
  is_ws c = true -> process_line ws (line ++ [c]) = process_line ws line.
Proof.
  intros Hc. destruct ws as [w s]. unfold process_line.
  destruct (startsWith (lit "data: ") line) eqn:Hs.
  - rewrite (startsWith_extend _ line [c] Hs).
    apply startsWith_app in Hs. change (length (lit "data: ")) with 6%nat in Hs.
    unfold slice. rewrite Hs at 1. rewrite <- app_assoc.
    change (drop 6 (lit "data: " ++ drop 6 line ++ [c])) with (drop 6 line ++ [c]).
    rewrite (parse_trailing_ws _ c Hc). reflexivity.
  - destruct (startsWith (lit "data: ") (line ++ [c])) eqn:Hs'; [| reflexivity].
    rewrite (startsWith_snoc _ line c Hs' Hs). reflexivity.
Qed.

Lemma chunk_lines_join_lf lines :
  Forall (fun l => 10 ∉ l) lines ->
  chunk_lines (join_lines [10] lines)
  = filter (fun l => nonempty (trim l) = true) lines.
Proof.
  induction 1 as [| l rest Hl _ IH]; [reflexivity |].
  unfold join_lines in *. cbn [map concat]. rewrite <- app_assoc. cbn [app].
  rewrite chunk_lines_app, IH, (chunk_lines_single l Hl), filter_cons.
  destruct (nonempty (trim l)); reflexivity.
Qed.

Lemma chunk_lines_join_crlf lines :
  Forall (fun l => 10 ∉ l) lines ->
  chunk_lines (join_lines [13; 10] lines)
  = map (fun l => l ++ [13]) (filter (fun l => nonempty (trim l) = true) lines).
Proof.
  induction 1 as [| l rest Hl _ IH]; [reflexivity |].
  unfold join_lines in *. cbn [map concat].
  change (l ++ [13; 10]) with (l ++ [13] ++ [10]).
  rewrite app_assoc, <- (app_assoc (l ++ [13])). cbn [app].
  rewrite chunk_lines_app, IH, chunk_lines_single, filter_cons.
  - rewrite (trim_snoc l 13 eq_refl). destruct (nonempty (trim l)); reflexivity.
  - intros Hin. apply elem_of_app in Hin as [Hin | Hin]; [auto |].
    apply elem_of_cons in Hin as [Hin | Hin]; [discriminate | apply elem_of_nil in Hin; exact Hin].
Qed.

(** X6. Lines that end in CR LF are read as lines that end in LF: the loop
    keeps the carriage return on the line, [trim] and [JSON.parse] both
    disregard it, and every line has the effect it has without it. *)
Theorem crlf_lines_read_alike
  (w : Widget) (ws : Widget * Stream) (lines : list jsstring) (finished : bool) :
  Forall (fun l => 10 ∉ l) lines ->
  process_chunk ws (join_lines [13; 10] lines)
  = fold_left process_line (filter (fun l => nonempty (trim l) = true) lines) ws
  /\ process_chunk ws (join_lines [13; 10] lines)
     = process_chunk ws (join_lines [10] lines)
  /\ sendMessage w (http_ok [join_lines [13; 10] lines] finished)
     = sendMessage w (http_ok [join_lines [10] lines] finished).
Proof.
  intros Hl.
  assert (H1 : forall ws', process_chunk ws' (join_lines [13; 10] lines)
                 = fold_left process_line
                     (filter (fun l => nonempty (trim l) = true) lines) ws').
  { intros ws'. unfold process_chunk. rewrite (chunk_lines_join_crlf lines Hl).
    generalize (filter (fun l => nonempty (trim l) = true) lines). clear.
    intros ls. revert ws'. induction ls as [| l rest IH]; intros ws'; [reflexivity |].
    cbn [map fold_left]. rewrite (process_line_trailing_ws ws' l 13 eq_refl). apply IH. }
  assert (H2 : forall ws', process_chunk ws' (join_lines [13; 10] lines)
                           = process_chunk ws' (join_lines [10] lines)).
  { intros ws'. rewrite H1. unfold process_chunk.
    rewrite (chunk_lines_join_lf lines Hl). reflexivity. }
  split; [apply H1 |]. split; [apply H2 |].
  apply sendMessage_same_stream. intros w'. unfold read_stream. cbn [fold_left].
  apply H2.
Qed.

End TrailingSpace.

(** ** The tree during and after a send *)

Section TreeOfASend.
Context `{NumberHost}.




Lemma streamed_streamed c a b : streamed (streamed c a) b = streamed c b.
Proof. reflexivity. Qed.



End TreeOfASend.




Section SendTree.
Context `{NumberHost}.


End SendTree.

(** ** Toggles and the tree *)

Lemma toggleChat_state state w :
  attributes (fst (toggleChat state w)) = attributes w
  /\ messages (fst (toggleChat state w)) = messages w
  /\ isLoading (fst (toggleChat state w)) = isLoading w
  /\ previousChatId (fst (toggleChat state w)) = previousChatId w
  /\ consentGiven (fst (toggleChat state w)) = consentGiven w.
Proof. repeat split. Qed.


(** ** Clicks on the two buttons *)

Section Clicks.
Context `{NumberHost}.



End Clicks.

(** ** Consent across a reload *)



(** ** Attribute changes *)



(** ** Escaped text *)

Lemma escape_unit_cases c :
  (c = 38 /\ escape_unit c = [38; 97; 109; 112; 59])
  \/ (c = 60 /\ escape_unit c = [38; 108; 116; 59])
  \/ (c = 62 /\ escape_unit c = [38; 103; 116; 59])
  \/ (c = 160 /\ escape_unit c = [38; 110; 98; 115; 112; 59])
  \/ (c <> 38 /\ c <> 60 /\ c <> 62 /\ c <> 160 /\ escape_unit c = [c]).
Proof.
  unfold escape_unit.
  destruct (N.eqb_spec c 38); [auto |].
  destruct (N.eqb_spec c 60); [auto |].
  destruct (N.eqb_spec c 62); [auto 6 |].
  destruct (N.eqb_spec c 160); [auto 6 |]. auto 10.
Qed.

Lemma escapeHtml_cons c text : escapeHtml (c :: text) = escape_unit c ++ escapeHtml text.
Proof. reflexivity. Qed.

Lemma escapeHtml_injective a : forall b, escapeHtml a = escapeHtml b -> a = b.
Proof.
  induction a as [| c a IH]; intros b.
  - destruct b as [| d b]; [reflexivity |]. rewrite escapeHtml_cons.
    destruct (escape_unit_cases d) as [[_ ->] | [[_ ->] | [[_ ->] | [[_ ->] | (_ & _ & _ & _ & ->)]]]];
      discriminate.
  - destruct b as [| d b].
    + rewrite escapeHtml_cons.
      destruct (escape_unit_cases c) as [[_ ->] | [[_ ->] | [[_ ->] | [[_ ->] | (_ & _ & _ & _ & ->)]]]];
        discriminate.
    + rewrite !escapeHtml_cons.
      destruct (escape_unit_cases c) as [[-> ->] | [[-> ->] | [[-> ->] | [[-> ->] | (? & ? & ? & ? & ->)]]]];
      destruct (escape_unit_cases d) as [[-> ->] | [[-> ->] | [[-> ->] | [[-> ->] | (? & ? & ? & ? & ->)]]]];
        cbn [app]; intros Heq;
        first [ discriminate Heq
              | injection Heq; intros; subst;
                first [ congruence | f_equal; apply IH; assumption ] ].
Qed.

(** X14. The escaped form of a text contains no angle bracket and no no-break
    space; a text without the ampersand, the angle brackets and the no-break
    space is left as it is; escaping goes piece by piece; and
    different texts have different escaped forms, so nothing of a message is
    lost by escaping it. *)
Theorem escapeHtml_safe (a b : jsstring) :
  ((60 ∉ escapeHtml a) /\ (62 ∉ escapeHtml a) /\ (160 ∉ escapeHtml a))
  /\ (Forall (fun c => c <> 38 /\ c <> 60 /\ c <> 62 /\ c <> 160) a ->
      escapeHtml a = a)
  /\ (escapeHtml a = escapeHtml b -> a = b)
  /\ escapeHtml (a ++ b) = escapeHtml a ++ escapeHtml b.
Proof.
  split; [| split; [| split]].
  - induction a as [| c a (IH1 & IH2 & IH3)]; [repeat split; apply not_elem_of_nil |].
    rewrite escapeHtml_cons.
    assert (Hu : (60 ∉ escape_unit c) /\ (62 ∉ escape_unit c) /\ (160 ∉ escape_unit c)).
    { destruct (escape_unit_cases c)
        as [[_ ->] | [[_ ->] | [[_ ->] | [[_ ->] | (? & ? & ? & ? & ->)]]]];
        repeat split; intros Hin;
        repeat (apply elem_of_cons in Hin as [Hin | Hin]; [congruence |]);
        apply elem_of_nil in Hin; exact Hin. }
    destruct Hu as (H1 & H2 & H3).
    repeat split; intros Hin; apply elem_of_app in Hin as [Hin | Hin]; auto.
  - induction 1 as [| c rest (? & ? & ? & ?) _ IH]; [reflexivity |].
    rewrite escapeHtml_cons, IH.
    destruct (escape_unit_cases c)
      as [[? _] | [[? _] | [[? _] | [[? _] | (_ & _ & _ & _ & ->)]]]];
      try congruence. reflexivity.
  - apply escapeHtml_injective.
  - unfold escapeHtml. rewrite map_app, concat_app. reflexivity.
Qed.

(** * Further properties of the loader *)

Lemma lookup_set_if name v (m : gmap string jsstring) k :
  Loader.set_if name v m !! k
  = if decide (name = k) then (if nonempty v then Some v else m !! k) else m !! k.
Proof.
  unfold Loader.set_if. destruct (nonempty v).
  - rewrite lookup_insert. destruct (decide (name = k)); reflexivity.
  - destruct (decide (name = k)); reflexivity.
Qed.

Lemma attr_or_given attrs name fallback :
  Loader.attr_or attrs name fallback
  = match given attrs name with Some v => v | None => fallback end.
Proof.
  unfold Loader.attr_or, given. destruct (attrs !! name) as [v |]; [| reflexivity].
  destruct (nonempty v); reflexivity.
Qed.

Lemma given_nonempty attrs name v : given attrs name = Some v -> nonempty v = true.
Proof.
  unfold given. destruct (attrs !! name) as [x |]; [| discriminate].
  destruct (nonempty x) eqn:Hx; [| discriminate]. intros [= <-]. exact Hx.
Qed.

Section CreatedElement.

(** X15. The element that [init] appends carries the two identifiers exactly as
    the script tag gives them, always a mode, theme, position, size and
    radius (the given value or the default), only attribute names of the
    vendor's vocabulary (never the loader's own options such as the logo or
    the footer), and no attribute with an empty value. *)
Theorem created_element_attributes
  (attrs : gmap string jsstring) (key aid : jsstring) :
  given attrs "data-public-key" = Some key ->
  given attrs "data-assistant-id" = Some aid ->
  let created := Loader.createVapiWidget (Loader.read_config attrs) in
  Loader.init attrs true
  = [Loader.injectStyles; Loader.loadVapiScript; Loader.appendWidget created]
    ++ Loader.injectCustomElements (Loader.read_config attrs)
    ++ [Loader.console_log "VAPI Custom Widget initialized"]
  /\ created !! "public-key" = Some key
  /\ created !! "assistant-id" = Some aid
  /\ created !! "mode"
     = Some (match given attrs "data-mode" with Some v => v | None => lit "chat" end)
  /\ created !! "theme"
     = Some (match given attrs "data-theme" with Some v => v | None => lit "light" end)
  /\ (forall name v, created !! name = Some v ->
        nonempty v = true /\ name ∈ forwarded_attributes).
Proof.
  intros Hk Ha. cbv zeta.
  assert (Hpk : Loader.publicKey (Loader.read_config attrs) = key).
  { cbn [Loader.read_config Loader.publicKey]. rewrite attr_or_given, Hk. reflexivity. }
  assert (Haid : Loader.assistantId (Loader.read_config attrs) = aid).
  { cbn [Loader.read_config Loader.assistantId]. rewrite attr_or_given, Ha. reflexivity. }
  pose proof (given_nonempty _ _ _ Hk) as Hkn.
  pose proof (given_nonempty _ _ _ Ha) as Han.
  split; [| split; [| split; [| split; [| split]]]].
  - unfold Loader.init. rewrite Hpk, Haid, Hkn, Han. reflexivity.
  - unfold Loader.createVapiWidget.
    repeat (rewrite lookup_set_if; destruct (decide _) as [Heq | _]; [discriminate Heq |]).
    rewrite lookup_insert_eq, Hpk. reflexivity.
  - unfold Loader.createVapiWidget.
    repeat (rewrite lookup_set_if; destruct (decide _) as [Heq | _]; [discriminate Heq |]).
    rewrite lookup_set_if. destruct (decide _) as [_ | Hne]; [| congruence].
    rewrite Haid, Han. reflexivity.
  - unfold Loader.createVapiWidget.
    repeat (rewrite lookup_set_if; destruct (decide _) as [Heq | _]; [discriminate Heq |]).
    rewrite lookup_set_if. destruct (decide _) as [_ | Hne]; [| congruence].
    cbn [Loader.read_config Loader.mode]. rewrite attr_or_given.
    destruct (given attrs "data-mode") as [v |] eqn:Hv;
      [rewrite (given_nonempty _ _ _ Hv) |]; reflexivity.
  - unfold Loader.createVapiWidget.
    repeat (rewrite lookup_set_if; destruct (decide _) as [Heq | _]; [discriminate Heq |]).
    rewrite lookup_set_if. destruct (decide _) as [_ | Hne]; [| congruence].
    cbn [Loader.read_config Loader.theme]. rewrite attr_or_given.
    destruct (given attrs "data-theme") as [v |] eqn:Hv;
      [rewrite (given_nonempty _ _ _ Hv) |]; reflexivity.
  - assert (Hstep : forall n x (m : gmap string jsstring),
              n ∈ forwarded_attributes ->
              (forall name v, m !! name = Some v ->
                 nonempty v = true /\ name ∈ forwarded_attributes) ->
              forall name v, Loader.set_if n x m !! name = Some v ->
                nonempty v = true /\ name ∈ forwarded_attributes).
    { intros n x m Hn Hm name v. rewrite lookup_set_if.
      destruct (decide (n = name)) as [<- | _]; [| apply Hm].
      destruct (nonempty x) eqn:Hx; [| apply Hm].
      intros [= <-]. split; assumption. }
    unfold Loader.createVapiWidget.
    repeat (apply Hstep; [unfold forwarded_attributes; repeat (first [left | right]) |]).
    rewrite Hpk. intros name v. rewrite lookup_insert.
    destruct (decide ("public-key"%string = name)) as [<- | _];
      [| rewrite lookup_empty; discriminate].
    intros [= <-]. split; [exact Hkn |].
    unfold forwarded_attributes. left.
Qed.

(** X16. The legacy names count only where the current name is missing: the
    accent colour is [data-accent-color], or else [data-primary-color]; the
    main label is [data-main-label], or else [data-header-title]; the
    empty-chat message is [data-empty-chat-message], or else
    [data-welcome-message]; and where neither is given the attribute is not
    set at all. *)
Theorem legacy_names_fall_back (attrs : gmap string jsstring) :
  let created := Loader.createVapiWidget (Loader.read_config attrs) in
  let pick a b :=
    match given attrs a with Some v => Some v | None => given attrs b end in
  created !! "accent-color" = pick "data-accent-color"%string "data-primary-color"%string
  /\ created !! "main-label" = pick "data-main-label"%string "data-header-title"%string
  /\ created !! "empty-chat-message"
     = pick "data-empty-chat-message"%string "data-welcome-message"%string.
Proof.
  cbv zeta.
  assert (Hpick : forall a b,
            (let v := Loader.attr_or attrs a (Loader.attr_or attrs b []) in
             if nonempty v then Some v else None)
            = match given attrs a with Some v => Some v | None => given attrs b end).
  { intros a b. cbv zeta. rewrite !attr_or_given.
    destruct (given attrs a) as [x |] eqn:Hx; [rewrite (given_nonempty _ _ _ Hx); reflexivity |].
    destruct (given attrs b) as [y |] eqn:Hy; [rewrite (given_nonempty _ _ _ Hy) |];
      reflexivity. }
  split; [| split]; rewrite <- Hpick; cbv zeta; unfold Loader.createVapiWidget;
    repeat (rewrite lookup_set_if; destruct (decide _) as [Heq | _]; [discriminate Heq |]);
    rewrite lookup_set_if; (destruct (decide _) as [_ | Hne]; [| congruence]);
    cbn [Loader.read_config Loader.accentColor Loader.mainLabel Loader.emptyChatMessage];
    match goal with
    | |- (if nonempty ?v then Some ?v else ?rest) = _ =>
        destruct (nonempty v); [reflexivity |]
    end;
    repeat (rewrite lookup_set_if; destruct (decide _) as [Heq | _]; [discriminate Heq |]);
    rewrite lookup_insert_ne by discriminate; apply lookup_empty.
Qed.

End CreatedElement.

(** ** The created element read by the custom element *)

Lemma createVapiWidget_calls c :
  Loader.createVapiWidget c
  = foldr (fun p m => Loader.set_if (fst p) (snd p) m)
          (<["public-key" := Loader.publicKey c]> ∅) (forwarded c).
Proof. reflexivity. Qed.

Lemma lookup_set_if_calls (calls : list (string * jsstring))
  (base : gmap string jsstring) name :
  foldr (fun p m => Loader.set_if (fst p) (snd p) m) base calls !! name
  = match find (fun p => String.eqb (fst p) name && nonempty (snd p)) calls with
    | Some p => Some (snd p)
    | None => base !! name
    end.
Proof.
  induction calls as [| [n v] rest IH]; [reflexivity |].
  cbn [foldr find fst snd]. rewrite lookup_set_if.
  destruct (decide (n = name)) as [-> | Hne].
  - rewrite String.eqb_refl. cbn [andb]. destruct (nonempty v); [reflexivity | exact IH].
  - apply String.eqb_neq in Hne. rewrite Hne. exact IH.
Qed.

Lemma getAttr_created c name :
  name <> "public-key"%string ->
  getAttr (new_widget (Loader.createVapiWidget c)) name
  = match find (fun p => String.eqb (fst p) name && nonempty (snd p)) (forwarded c) with
    | Some p => Some (snd p)
    | None => None
    end.
Proof.
  intros Hne. unfold getAttr. cbn [attributes new_widget].
  rewrite createVapiWidget_calls, lookup_set_if_calls.
  destruct (find _ (forwarded c)) as [[n v] |] eqn:Hf.
  - apply find_some in Hf as [_ Hv]. apply andb_true_iff in Hv as [_ Hv].
    cbn [snd] in *. rewrite Hv. reflexivity.
  - rewrite lookup_insert_ne by congruence. rewrite lookup_empty. reflexivity.
Qed.

(** X17. Both scripts use the tag [vapi-widget] and the same attribute names.
    Where the element the loader creates is the custom element of the other
    script, its configuration is what the script tag said: the identifiers,
    the theme, position, size and radius with the same defaults on both
    sides, the overrides, and consent required exactly when
    [data-require-consent] is given and is not the text [false].  The
    loader's own options (logo, footer, header title) are not passed on: the
    element reads no logo, footer or header. *)
Theorem created_element_read_back
  (attrs : gmap string jsstring) (key aid : jsstring) :
  given attrs "data-public-key" = Some key ->
  given attrs "data-assistant-id" = Some aid ->
  let config :=
    getConfig (new_widget (Loader.createVapiWidget (Loader.read_config attrs))) in
  let or_default name d :=
    match given attrs name with Some v => v | None => lit d end in
  publicKey config = Some key
  /\ assistantId config = Some aid
  /\ assistantOverrides config = given attrs "data-assistant-overrides"
  /\ theme config = or_default "data-theme"%string "light"%string
  /\ position config = or_default "data-position"%string "bottom-right"%string
  /\ size config = or_default "data-size"%string "full"%string
  /\ radius config = or_default "data-radius"%string "medium"%string
  /\ requireConsent config
     = match given attrs "data-require-consent" with
       | Some v => negb (jsstring_eqb v (lit "false"))
       | None => false
       end
  /\ logo config = None /\ footer config = None /\ header config = None.
Proof.
  intros Hk Ha. cbv zeta.
  set (c := Loader.read_config attrs).
  assert (Hfield : forall name d,
            Loader.attr_or attrs name (lit d)
            = match given attrs name with Some v => v | None => lit d end)
    by (intros; apply attr_or_given).
  assert (Hopt : forall name,
            (if nonempty (Loader.attr_or attrs name [])
             then Some (Loader.attr_or attrs name []) else None)
            = given attrs name).
  { intros name. rewrite attr_or_given.
    destruct (given attrs name) as [v |] eqn:Hv;
      [rewrite (given_nonempty _ _ _ Hv) |]; reflexivity. }
  assert (Hdef : forall name d,
            match (if nonempty (Loader.attr_or attrs name (lit d))
                   then Some (Loader.attr_or attrs name (lit d)) else None) with
            | Some v => v
            | None => lit d
            end
            = match given attrs name with Some v => v | None => lit d end).
  { intros name d. rewrite attr_or_given.
    destruct (given attrs name) as [v |] eqn:Hv;
      [rewrite (given_nonempty _ _ _ Hv); reflexivity |].
    destruct (nonempty (lit d)); reflexivity. }
  split.
  { cbn [getConfig publicKey]. unfold getAttr. cbn [attributes new_widget].
    rewrite createVapiWidget_calls, lookup_set_if_calls. cbn.
    rewrite lookup_insert_eq. subst c. cbn [Loader.read_config Loader.publicKey].
    rewrite attr_or_given, Hk, (given_nonempty _ _ _ Hk). reflexivity. }
  cbn [getConfig assistantId assistantOverrides theme position size radius
       requireConsent logo footer header].
  unfold getAttrOr.
  rewrite !getAttr_created by discriminate.
  cbn [forwarded find fst snd String.eqb Ascii.eqb Bool.eqb andb].
  subst c. cbn [Loader.read_config Loader.assistantId Loader.assistantOverrides
    Loader.theme Loader.position Loader.size Loader.radius].
  repeat match goal with
         | |- context [if nonempty ?v then Some ?p else None] =>
             change (if nonempty v then Some p else None)
               with (match (if nonempty v then Some v else None) with
                     | Some x => Some x
                     | None => None
                     end)
         end.
  split; [rewrite attr_or_given, Ha, (given_nonempty _ _ _ Ha); reflexivity |].
  split; [rewrite <- Hopt; destruct (nonempty _); reflexivity |].
  split; [rewrite <- Hdef; destruct (nonempty _); reflexivity |].
  split; [rewrite <- Hdef; destruct (nonempty _); reflexivity |].
  split; [rewrite <- Hdef; destruct (nonempty _); reflexivity |].
  split; [rewrite <- Hdef; destruct (nonempty _); reflexivity |].
  split; [| repeat split].
  unfold getBoolAttr. cbn [attributes new_widget].
  rewrite createVapiWidget_calls, lookup_set_if_calls.
  cbn [forwarded find fst snd String.eqb Ascii.eqb Bool.eqb andb].
  cbn [Loader.read_config Loader.requireConsent]. rewrite <- Hopt.
  destruct (nonempty (Loader.attr_or attrs "data-require-consent" [])); [reflexivity |].
  rewrite lookup_insert_ne by discriminate. rewrite lookup_empty. reflexivity.
Qed.

(** * The loader's injection into the vendor widget *)

Module InjectFacts.
Import Inject.

Scheme extends_min := Minimality for Inject.extends Sort Prop
  with extends_all_min := Minimality for Inject.extends_all Sort Prop.
Combined Scheme extends_mutual from extends_min, extends_all_min.

Lemma Node_forall_ind (P : Node -> Prop) :
  (forall data, P (Text data)) ->
  (forall tag cls attrs ch, Forall P ch -> P (Element tag cls attrs ch)) ->
  forall n, P n.
Proof.
  intros Htext Helem. fix IH 1. intros [tag cls attrs ch | data]; [| apply Htext].
  apply Helem. induction ch as [| x r IHr]; constructor; [apply IH | exact IHr].
Qed.

Lemma find_in_element p tag cls attrs ch :
  find_in p (Element tag cls attrs ch)
  = if p (Element tag cls attrs ch) then Some (Element tag cls attrs ch)
    else find_first p ch.
Proof.
  cbn [find_in]. destruct (p _); [reflexivity |].
  induction ch as [| x r IH]; [reflexivity |].
  cbn [find_first]. destruct (find_in p x); [reflexivity | exact IH].
Qed.

Lemma find_in_text p data :
  find_in p (Text data) = if p (Text data) then Some (Text data) else None.
Proof. reflexivity. Qed.

Lemma update_in_element p f tag cls attrs ch :
  update_in p f (Element tag cls attrs ch)
  = if p (Element tag cls attrs ch) then Some (f (Element tag cls attrs ch))
    else match update_first p f ch with
         | Some ch' => Some (Element tag cls attrs ch')
         | None => None
         end.
Proof.
  cbn [update_in]. destruct (p _); [reflexivity |].
  match goal with
  | |- match ?a with _ => _ end = match ?b with _ => _ end =>
      replace a with b; [reflexivity |]
  end.
  induction ch as [| x r IH]; [reflexivity |].
  cbn [update_first]. destruct (update_in p f x); [reflexivity |].
  rewrite IH. reflexivity.
Qed.

Section Searches.
Variable p : Node -> bool.
Variable inert : Node -> bool.

(** [p] looks at the tag and the class of a node only. *)
Hypothesis p_own : forall tag cls attrs ch ch',
  p (Element tag cls attrs ch) = p (Element tag cls attrs ch').

Lemma extends_refl : forall n, extends inert n n.
Proof.
  apply Node_forall_ind; [constructor |].
  intros tag cls attrs ch Hch. constructor.
  induction Hch as [| x r Hx _ IH]; [constructor |].
  apply extends_kept; assumption.
Qed.

Lemma extends_all_refl nodes : extends_all inert nodes nodes.
Proof.
  induction nodes as [| x r IH]; [constructor |].
  apply extends_kept; [apply extends_refl | exact IH].
Qed.

Lemma extends_all_snoc nodes x :
  inert x = true -> extends_all inert nodes (nodes ++ [x]).
Proof.
  intros Hx. induction nodes as [| y r IH]; cbn [app].
  - apply extends_added; [exact Hx | constructor].
  - apply extends_kept; [apply extends_refl | exact IH].
Qed.

Lemma extends_same_p n n' : extends inert n n' -> p n' = p n.
Proof. intros [data | tag cls attrs ch ch' _]; [reflexivity | apply p_own]. Qed.

(** Whatever matched before still has something matching. *)
Lemma extends_keeps_found :
  (forall n n', extends inert n n' ->
     find_in p n <> None -> find_in p n' <> None)
  /\ (forall a b, extends_all inert a b ->
        find_first p a <> None -> find_first p b <> None).
Proof.
  apply extends_mutual.
  - auto.
  - intros tag cls attrs ch ch' _ IH. rewrite !find_in_element.
    rewrite (p_own tag cls attrs ch' ch). destruct (p _); [discriminate | exact IH].
  - auto.
  - intros n a b _ _ IH Ha. cbn [find_first].
    destruct (find_in p n); [discriminate | auto].
  - intros n n' a b _ IHn _ IHa. cbn [find_first].
    destruct (find_in p n) eqn:Hn.
    + intros _. destruct (find_in p n'); [discriminate |].
      exfalso. apply IHn; [discriminate | reflexivity].
    + intros Ha. destruct (find_in p n'); [discriminate | auto].
Qed.

(** The subtrees put in hold nothing that [p] finds. *)
Hypothesis inert_unfound : forall n, inert n = true -> find_in p n = None.

Lemma extends_first_found :
  (forall n n', extends inert n n' ->
     (find_in p n = None -> find_in p n' = None)
     /\ (forall m, find_in p n = Some m ->
           exists m', find_in p n' = Some m' /\ extends inert m m'))
  /\ (forall a b, extends_all inert a b ->
        (find_first p a = None -> find_first p b = None)
        /\ (forall m, find_first p a = Some m ->
              exists m', find_first p b = Some m' /\ extends inert m m')).
Proof.
  apply extends_mutual.
  - intros data. split; [auto |]. intros m Hm. exists m. split; [exact Hm |].
    rewrite find_in_text in Hm. destruct (p _); [| discriminate].
    injection Hm as <-. constructor.
  - intros tag cls attrs ch ch' Hch [IH1 IH2]. rewrite !find_in_element.
    rewrite (p_own tag cls attrs ch' ch). destruct (p _).
    + split; [discriminate |]. intros m [= <-]. eexists. split; [reflexivity |].
      constructor. exact Hch.
    + split; assumption.
  - split; [auto | discriminate].
  - intros n a b Hn _ [IH1 IH2]. cbn [find_first].
    rewrite (inert_unfound n Hn). split; assumption.
  - intros n n' a b _ [IHn1 IHn2] _ [IHa1 IHa2]. cbn [find_first].
    destruct (find_in p n) as [m0 |] eqn:Hn.
    + split; [discriminate |]. intros m [= <-].
      destruct (IHn2 m0 eq_refl) as (m' & Hm' & He). rewrite Hm'. eauto.
    + rewrite (IHn1 eq_refl). split; assumption.
Qed.

Variable f : Node -> Node.

Lemma update_first_none_all nodes :
  Forall (fun n => update_in p f n = None <-> find_in p n = None) nodes ->
  update_first p f nodes = None <-> find_first p nodes = None.
Proof.
  induction 1 as [| x r [H1 H2] _ IH]; [split; reflexivity |].
  cbn [update_first find_first].
  destruct (update_in p f x), (find_in p x).
  - split; discriminate.
  - specialize (H2 eq_refl). discriminate.
  - specialize (H1 eq_refl). discriminate.
  - destruct (update_first p f r); [| exact IH].
    split; [discriminate | intros Hf; apply IH in Hf; discriminate].
Qed.

Lemma update_in_none : forall n,
  update_in p f n = None <-> find_in p n = None.
Proof.
  apply Node_forall_ind.
  - intros data. cbn. destruct (p _); split; auto; discriminate.
  - intros tag cls attrs ch Hch. rewrite update_in_element, find_in_element.
    destruct (p _); [split; discriminate |].
    apply update_first_none_all in Hch.
    destruct (update_first p f ch); [| split; [intros _; apply Hch; reflexivity | reflexivity]].
    split; [discriminate | intros Hf; apply Hch in Hf; discriminate].
Qed.

Lemma update_first_none nodes :
  update_first p f nodes = None <-> find_first p nodes = None.
Proof.
  apply update_first_none_all, Forall_forall. intros n _. apply update_in_none.
Qed.

(** Where [f] leaves the first node found as it is, the tree stays as it
    is. *)
Lemma update_first_fixed_all nodes :
  Forall (fun n => forall m, find_in p n = Some m -> f m = m ->
                             update_in p f n = Some n) nodes ->
  forall m, find_first p nodes = Some m -> f m = m ->
            update_first p f nodes = Some nodes.
Proof.
  induction 1 as [| x r Hx _ IH]; [discriminate |].
  intros m. cbn [update_first find_first].
  destruct (find_in p x) as [m0 |] eqn:Hf.
  - intros [= <-] Hm. rewrite (Hx m0 eq_refl Hm). reflexivity.
  - intros Hr Hm. apply update_in_none in Hf. rewrite Hf.
    rewrite (IH m Hr Hm). reflexivity.
Qed.

Lemma update_in_fixed : forall n m,
  find_in p n = Some m -> f m = m -> update_in p f n = Some n.
Proof.
  apply (Node_forall_ind (fun n => forall m, find_in p n = Some m -> f m = m ->
                                             update_in p f n = Some n)).
  - intros data m. cbn. destruct (p _); [| discriminate].
    intros [= <-] ->. reflexivity.
  - intros tag cls attrs ch Hch m. rewrite update_in_element, find_in_element.
    destruct (p _).
    + intros [= <-] ->. reflexivity.
    + intros Hm Hfm. rewrite (update_first_fixed_all ch Hch m Hm Hfm). reflexivity.
Qed.

Lemma update_first_fixed nodes m :
  find_first p nodes = Some m -> f m = m -> update_first p f nodes = Some nodes.
Proof.
  apply update_first_fixed_all, Forall_forall. intros n _. apply update_in_fixed.
Qed.

(** The node found first after the update is the updated node, as long as
    [f] keeps the tag and the class. *)
Hypothesis f_keeps_p : forall n, p n = true -> p (f n) = true.

Lemma update_first_found_all nodes :
  Forall (fun n => forall n', update_in p f n = Some n' ->
            exists m, find_in p n = Some m /\ find_in p n' = Some (f m)) nodes ->
  forall nodes', update_first p f nodes = Some nodes' ->
    exists m, find_first p nodes = Some m /\ find_first p nodes' = Some (f m).
Proof.
  induction 1 as [| x r Hx _ IH]; [discriminate |].
  intros nodes'. cbn [update_first].
  destruct (update_in p f x) as [x' |] eqn:Hu.
  - intros [= <-]. destruct (Hx x' eq_refl) as (m & Hm & Hm').
    exists m. cbn [find_first]. rewrite Hm, Hm'. split; reflexivity.
  - destruct (update_first p f r) as [r' |]; [| discriminate].
    intros [= <-]. destruct (IH r' eq_refl) as (m & Hm & Hm').
    exists m. cbn [find_first]. apply update_in_none in Hu. rewrite Hu.
    split; assumption.
Qed.

Lemma update_in_found : forall n n',
  update_in p f n = Some n' ->
  exists m, find_in p n = Some m /\ find_in p n' = Some (f m).
Proof.
  apply (Node_forall_ind (fun n => forall n', update_in p f n = Some n' ->
            exists m, find_in p n = Some m /\ find_in p n' = Some (f m))).
  - intros data n'. cbn. destruct (p (Text data)) eqn:Hp; [| discriminate].
    intros [= <-]. exists (Text data). split; [reflexivity |].
    pose proof (f_keeps_p _ Hp) as Hp'.
    destruct (f (Text data)) as [tag cls attrs ch | d].
    + rewrite find_in_element, Hp'. reflexivity.
    + rewrite find_in_text, Hp'. reflexivity.
  - intros tag cls attrs ch Hch n'. rewrite update_in_element, find_in_element.
    destruct (p (Element tag cls attrs ch)) eqn:Hp.
    + intros [= <-]. eexists. split; [reflexivity |].
      pose proof (f_keeps_p _ Hp) as Hp'.
      destruct (f (Element tag cls attrs ch)) as [tag' cls' attrs' ch' | d].
      * rewrite find_in_element, Hp'. reflexivity.
      * rewrite find_in_text, Hp'. reflexivity.
    + destruct (update_first p f ch) as [ch' |] eqn:Hu; [| discriminate].
      intros [= <-]. rewrite find_in_element.
      rewrite (p_own tag cls attrs ch' ch), Hp.
      apply (update_first_found_all ch Hch). exact Hu.
Qed.

Lemma update_first_found nodes nodes' :
  update_first p f nodes = Some nodes' ->
  exists m, find_first p nodes = Some m /\ find_first p nodes' = Some (f m).
Proof.
  apply update_first_found_all, Forall_forall. intros n _. apply update_in_found.
Qed.

(** The update puts in what [f] puts in, and nothing else. *)
Hypothesis f_extends : forall n, p n = true -> extends inert n (f n).

Lemma update_first_extends_all nodes :
  Forall (fun n => forall n', update_in p f n = Some n' -> extends inert n n') nodes ->
  forall nodes', update_first p f nodes = Some nodes' ->
                 extends_all inert nodes nodes'.
Proof.
  induction 1 as [| x r Hx _ IH]; [discriminate |].
  intros nodes'. cbn [update_first].
  destruct (update_in p f x) as [x' |] eqn:Hu.
  - intros [= <-]. apply extends_kept; [apply Hx; reflexivity | apply extends_all_refl].
  - destruct (update_first p f r) as [r' |]; [| discriminate].
    intros [= <-]. apply extends_kept; [apply extends_refl | apply IH; reflexivity].
Qed.

Lemma update_in_extends : forall n n',
  update_in p f n = Some n' -> extends inert n n'.
Proof.
  apply (Node_forall_ind (fun n => forall n', update_in p f n = Some n' ->
                                              extends inert n n')).
  - intros data n'. cbn. destruct (p (Text data)) eqn:Hp; [| discriminate].
    intros [= <-]. apply f_extends. exact Hp.
  - intros tag cls attrs ch Hch n'. rewrite update_in_element.
    destruct (p (Element tag cls attrs ch)) eqn:Hp.
    + intros [= <-]. apply f_extends. exact Hp.
    + destruct (update_first p f ch) as [ch' |] eqn:Hu; [| discriminate].
      intros [= <-]. constructor. apply (update_first_extends_all ch Hch). exact Hu.
Qed.

Lemma update_first_extends nodes nodes' :
  update_first p f nodes = Some nodes' -> extends_all inert nodes nodes'.
Proof.
  apply update_first_extends_all, Forall_forall. intros n _. apply update_in_extends.
Qed.

End Searches.

Lemma find_first_sat p nodes m : find_first p nodes = Some m -> p m = true.
Proof.
  revert nodes m.
  assert (Hn : forall n m, find_in p n = Some m -> p m = true).
  { apply (Node_forall_ind (fun n => forall m, find_in p n = Some m -> p m = true)).
    - intros data m. cbn. destruct (p (Text data)) eqn:Hp; [| discriminate].
      intros [= <-]. exact Hp.
    - intros tag cls attrs ch Hch m. rewrite find_in_element.
      destruct (p (Element tag cls attrs ch)) eqn:Hp.
      + intros [= <-]. exact Hp.
      + clear Hp. induction Hch as [| x r Hx _ IH]; [discriminate |].
        cbn [find_first]. destruct (find_in p x) as [y |] eqn:Hf; [| exact IH].
        intros [= <-]. apply (Hx y). reflexivity. }
  induction nodes as [| x r IH]; [discriminate |].
  intros m. cbn [find_first]. destruct (find_in p x) as [y |] eqn:Hf; [| apply IH].
  intros [= <-]. apply (Hn x y Hf).
Qed.

(** A narrower search finds nothing where a wider one finds nothing. *)
Lemma find_in_narrower p q :
  (forall n, p n = true -> q n = true) ->
  forall n, find_in q n = None -> find_in p n = None.
Proof.
  intros Hpq.
  apply (Node_forall_ind (fun n => find_in q n = None -> find_in p n = None)).
  - intros data. cbn. destruct (q (Text data)) eqn:Hq; [discriminate |].
    destruct (p (Text data)) eqn:Hp; [| reflexivity].
    apply Hpq in Hp. congruence.
  - intros tag cls attrs ch Hch. rewrite !find_in_element.
    destruct (q (Element tag cls attrs ch)) eqn:Hq; [discriminate |].
    destruct (p (Element tag cls attrs ch)) eqn:Hp; [apply Hpq in Hp; congruence |].
    clear Hp Hq. induction Hch as [| x r Hx _ IH]; [reflexivity |].
    cbn [find_first]. destruct (find_in q x); [discriminate |].
    rewrite (Hx eq_refl). exact IH.
Qed.

Lemma find_first_snoc_found p nodes x :
  find_in p x <> None -> find_first p (nodes ++ [x]) <> None.
Proof.
  intros Hx. induction nodes as [| y r IH]; cbn [app find_first].
  - destruct (find_in p x); [discriminate | congruence].
  - destruct (find_in p y); [discriminate | exact IH].
Qed.

Lemma matches_own sel tag cls attrs ch ch' :
  matches sel (Element tag cls attrs ch) = matches sel (Element tag cls attrs ch').
Proof. reflexivity. Qed.

Lemma matches_any_own sels tag cls attrs ch ch' :
  matches_any sels (Element tag cls attrs ch)
  = matches_any sels (Element tag cls attrs ch').
Proof. reflexivity. Qed.

Lemma matches_any_in sels sel n :
  In sel sels -> matches sel n = true -> matches_any sels n = true.
Proof.
  intros Hin Hm. unfold matches_any. apply existsb_exists. exists sel. auto.
Qed.

Lemma matches_any_incl sels sels' n :
  incl sels sels' -> matches_any sels n = true -> matches_any sels' n = true.
Proof.
  unfold matches_any. intros Hincl Hm. apply existsb_exists.
  apply existsb_exists in Hm. destruct Hm as (sel & Hin & Hsel). eauto.
Qed.

Lemma unsearched_unfound sels n :
  incl sels searched -> unsearched n = true ->
  find_in (matches_any sels) n = None.
Proof.
  intros Hincl Hn. unfold unsearched in Hn.
  apply (find_in_narrower _ (matches_any searched)).
  - intros m. apply matches_any_incl, Hincl.
  - destruct (find_in (matches_any searched) n); [discriminate | reflexivity].
Qed.

Lemma unsearched_unfound_one sel n :
  In sel searched -> unsearched n = true -> find_in (matches sel) n = None.
Proof.
  intros Hin Hn. unfold unsearched in Hn.
  apply (find_in_narrower _ (matches_any searched)).
  - intros m. apply matches_any_in, Hin.
  - destruct (find_in (matches_any searched) n); [discriminate | reflexivity].
Qed.

Lemma extends_unsearched n n' :
  extends unsearched n n' -> unsearched n = true -> unsearched n' = true.
Proof.
  intros He Hn. unfold unsearched in *.
  destruct (find_in (matches_any searched) n) eqn:Hf; [discriminate |].
  destruct (extends_first_found (matches_any searched) unsearched
              (matches_any_own searched)) as [Hnode _].
  { intros m Hm. apply unsearched_unfound; [apply incl_refl | exact Hm]. }
  destruct (Hnode n n' He) as [Hnone _]. rewrite (Hnone Hf). reflexivity.
Qed.

Lemma extends_trans :
  (forall b c, extends unsearched b c ->
     forall a, extends unsearched a b -> extends unsearched a c)
  /\ (forall b c, extends_all unsearched b c ->
        forall a, extends_all unsearched a b -> extends_all unsearched a c).
Proof.
  apply extends_mutual.
  - auto.
  - intros tag cls attrs ch ch' _ IH a Ha. inversion Ha; subst.
    constructor. apply IH. assumption.
  - auto.
  - intros n b c Hn _ IH a Ha. apply extends_added; [exact Hn | apply IH, Ha].
  - intros n n' b c Hnn' IHn _ IH a Ha. inversion Ha; subst.
    + apply extends_added; [| apply IH; assumption].
      apply (extends_unsearched n n'); assumption.
    + apply extends_kept; [apply IHn | apply IH]; assumption.
Qed.

Lemma extends_all_trans a b c :
  extends_all unsearched a b -> extends_all unsearched b c ->
  extends_all unsearched a c.
Proof. intros Hab Hbc. destruct extends_trans as [_ H]. exact (H b c Hbc a Hab). Qed.

Lemma has_descendant_extends inert sels n n' :
  extends inert n n' -> has_descendant sels n = true ->
  has_descendant sels n' = true.
Proof.
  intros He. unfold has_descendant.
  destruct He as [data | tag cls attrs ch ch' Hch]; [auto |].
  cbn [children_of].
  destruct (extends_keeps_found (matches_any sels) inert (matches_any_own sels))
    as [_ Hall].
  specialize (Hall ch ch' Hch).
  destruct (find_first (matches_any sels) ch); [| discriminate].
  intros _. destruct (find_first (matches_any sels) ch'); [reflexivity |].
  exfalso. apply Hall; [discriminate | reflexivity].
Qed.

(** What [first_found] does once is not done again to a tree that has only
    had unsearched subtrees put in since: [g] is the check with which [f]
    begins. *)
Section Stable.
Variable f : Node -> Node.
Variable g : Node -> bool.
Hypothesis f_extends : forall n, extends unsearched n (f n).
Hypothesis f_keeps : forall sel n, matches sel n = true -> matches sel (f n) = true.
Hypothesis f_checked : forall sel n, matches sel n = true -> g (f n) = true.
Hypothesis g_extends : forall n n', extends unsearched n n' -> g n = true -> g n' = true.
Hypothesis g_stops : forall n, g n = true -> f n = n.

Lemma first_found_extends sels nodes :
  extends_all unsearched nodes (first_found sels f nodes).
Proof.
  induction sels as [| sel rest IH]; cbn [first_found]; [apply extends_all_refl |].
  destruct (update_first (matches sel) f nodes) as [nodes' |] eqn:Hu; [| exact IH].
  apply (update_first_extends (matches sel) unsearched f (fun n _ => f_extends n)).
  exact Hu.
Qed.

Lemma update_first_stable p nodes nodes1 nodes' :
  (forall tag cls attrs ch ch',
     p (Element tag cls attrs ch) = p (Element tag cls attrs ch')) ->
  (forall n, unsearched n = true -> find_in p n = None) ->
  (forall n, p n = true -> p (f n) = true) ->
  (forall n, p n = true -> g (f n) = true) ->
  update_first p f nodes = Some nodes1 ->
  extends_all unsearched nodes1 nodes' ->
  update_first p f nodes' = Some nodes'.
Proof.
  intros Hown Hunfound Hkeeps Hchecked Hu He.
  destruct (extends_first_found p unsearched Hown Hunfound) as [_ Hall].
  destruct (update_first_found p Hown f Hkeeps nodes nodes1 Hu) as (m & Hm & Hm1).
  destruct (Hall nodes1 nodes' He) as [_ Hsome].
  destruct (Hsome (f m) Hm1) as (m' & Hm' & Hfm).
  apply find_first_sat in Hm.
  assert (Hg : g m' = true).
  { apply (g_extends (f m)); [exact Hfm | apply Hchecked; exact Hm]. }
  apply (update_first_fixed p f nodes' m' Hm' (g_stops m' Hg)).
Qed.

Lemma update_first_none_stable p nodes nodes' :
  (forall tag cls attrs ch ch',
     p (Element tag cls attrs ch) = p (Element tag cls attrs ch')) ->
  (forall n, unsearched n = true -> find_in p n = None) ->
  update_first p f nodes = None ->
  extends_all unsearched nodes nodes' ->
  update_first p f nodes' = None.
Proof.
  intros Hown Hunfound Hu He.
  destruct (extends_first_found p unsearched Hown Hunfound) as [_ Hall].
  destruct (Hall nodes nodes' He) as [Hnone _].
  apply update_first_none. apply Hnone. apply (update_first_none p f). exact Hu.
Qed.

Lemma first_found_stable sels :
  incl sels searched ->
  forall nodes nodes',
    extends_all unsearched (first_found sels f nodes) nodes' ->
    first_found sels f nodes' = nodes'.
Proof.
  induction sels as [| sel rest IH]; intros Hincl nodes nodes'; [reflexivity |].
  assert (Hsel : In sel searched) by (apply Hincl; left; reflexivity).
  assert (Hrest : incl rest searched) by (intros x Hx; apply Hincl; right; exact Hx).
  cbn [first_found].
  destruct (update_first (matches sel) f nodes) as [nodes1 |] eqn:Hu.
  - intros He.
    rewrite (update_first_stable (matches sel) nodes nodes1 nodes'
               (matches_own sel) (fun n => unsearched_unfound_one sel n Hsel)
               (f_keeps sel) (f_checked sel) Hu He).
    reflexivity.
  - intros He.
    rewrite (update_first_none_stable (matches sel) nodes nodes'
               (matches_own sel) (fun n => unsearched_unfound_one sel n Hsel) Hu).
    + apply (IH Hrest nodes nodes' He).
    + apply (extends_all_trans _ (first_found rest f nodes));
        [apply first_found_extends | exact He].
Qed.

End Stable.

Section Injected.
Variable parse_html : jsstring -> list Node.
Variable c : Loader.Config.

Lemma logo_class_unsearched tag attrs ch :
  matches_any searched (Element tag logo_class attrs ch) = false.
Proof. reflexivity. Qed.

Lemma footer_class_unsearched tag attrs ch :
  matches_any searched (Element tag footer_class attrs ch) = false.
Proof. reflexivity. Qed.

Lemma logo_class_is tag attrs ch :
  matches_any [class_is logo_class] (Element tag logo_class attrs ch) = true.
Proof. reflexivity. Qed.

Lemma footer_class_is tag attrs ch :
  matches_any [class_is footer_class] (Element tag footer_class attrs ch) = true.
Proof. reflexivity. Qed.

Lemma logoImg_unsearched : unsearched (logoImg c) = true.
Proof.
  unfold unsearched, logoImg. rewrite find_in_element, logo_class_unsearched.
  reflexivity.
Qed.

Lemma styleElement_unsearched : unsearched (styleElement c) = true.
Proof. reflexivity. Qed.

Lemma footerDiv_unsearched :
  footer_unsearched parse_html c -> unsearched (footerDiv parse_html c) = true.
Proof.
  intros Hf. unfold unsearched, footerDiv, footer_unsearched in *.
  rewrite find_in_element, footer_class_unsearched.
  destruct (nonempty (Loader.footerLink c) && nonempty (Loader.footerLinkText c)).
  - rewrite (Hf eq_refl). reflexivity.
  - reflexivity.
Qed.

Lemma injectLogoIntoHeader_extends n :
  extends unsearched n (injectLogoIntoHeader c n).
Proof.
  unfold injectLogoIntoHeader.
  destruct (negb _ || _); [apply extends_refl |].
  destruct n as [tag cls attrs ch | data]; [| constructor].
  constructor. apply extends_added; [apply logoImg_unsearched | apply extends_all_refl].
Qed.

Lemma injectLogoIntoHeader_keeps sel n :
  matches sel n = true -> matches sel (injectLogoIntoHeader c n) = true.
Proof.
  unfold injectLogoIntoHeader.
  destruct (negb _ || _); [auto |]. destruct n; auto.
Qed.

Lemma injectLogoIntoHeader_checked sel n :
  nonempty (Loader.logo c) = true -> matches sel n = true ->
  has_descendant [class_is logo_class] (injectLogoIntoHeader c n) = true.
Proof.
  intros Hlogo Hn. unfold injectLogoIntoHeader. rewrite Hlogo. cbn [negb orb].
  destruct (has_descendant [class_is logo_class] n) eqn:Hg; [exact Hg |].
  destruct n as [tag cls attrs ch | data]; [| discriminate].
  unfold has_descendant. cbn [children_of find_first]. unfold logoImg.
  rewrite find_in_element, logo_class_is. reflexivity.
Qed.

Lemma injectLogoIntoHeader_stops n :
  has_descendant [class_is logo_class] n = true -> injectLogoIntoHeader c n = n.
Proof.
  intros Hg. unfold injectLogoIntoHeader. rewrite Hg, orb_true_r. reflexivity.
Qed.

Lemma injectFooter_extends n :
  footer_unsearched parse_html c ->
  extends unsearched n (injectFooter parse_html c n).
Proof.
  intros Hf. unfold injectFooter.
  destruct (negb _ || _); [apply extends_refl |].
  destruct n as [tag cls attrs ch | data]; [| constructor].
  constructor. apply extends_all_snoc, footerDiv_unsearched, Hf.
Qed.

Lemma injectFooter_keeps sel n :
  matches sel n = true -> matches sel (injectFooter parse_html c n) = true.
Proof.
  unfold injectFooter.
  destruct (negb _ || _); [auto |]. destruct n; auto.
Qed.

Lemma injectFooter_checked sel n :
  nonempty (Loader.footer c) = true -> matches sel n = true ->
  has_descendant [class_is footer_class] (injectFooter parse_html c n) = true.
Proof.
  intros Hfooter Hn. unfold injectFooter. rewrite Hfooter. cbn [negb orb].
  destruct (has_descendant [class_is footer_class] n) eqn:Hg; [exact Hg |].
  destruct n as [tag cls attrs ch | data]; [| discriminate].
  unfold has_descendant. cbn [children_of].
  destruct (find_first (matches_any [class_is footer_class])
              (ch ++ [footerDiv parse_html c])) eqn:Hfind; [reflexivity |].
  exfalso. revert Hfind. apply find_first_snoc_found.
  unfold footerDiv. rewrite find_in_element, footer_class_is. discriminate.
Qed.

Lemma injectFooter_stops n :
  has_descendant [class_is footer_class] n = true ->
  injectFooter parse_html c n = n.
Proof.
  intros Hg. unfold injectFooter. rewrite Hg, orb_true_r. reflexivity.
Qed.

Lemma headerSelectors_searched : incl headerSelectors searched.
Proof. apply incl_appl, incl_refl. Qed.

Lemma containerSelectors_searched : incl containerSelectors searched.
Proof. apply incl_appr, incl_refl. Qed.

(** The second run of [injectIntoShadowDOM] on the same shadow root puts in
    its style element and nothing else. *)
Lemma injectIntoShadowDOM_twice root :
  footer_unsearched parse_html c ->
  injectIntoShadowDOM parse_html c (injectIntoShadowDOM parse_html c root)
  = injectIntoShadowDOM parse_html c root ++ [styleElement c].
Proof.
  intros Hf. unfold injectIntoShadowDOM at 1.
  set (first := injectIntoShadowDOM parse_html c root).
  assert (Hsnoc : extends_all unsearched first (first ++ [styleElement c]))
    by apply extends_all_snoc, styleElement_unsearched.
  cbv zeta.
  assert (Hlogo : (if nonempty (Loader.logo c)
                   then first_found headerSelectors (injectLogoIntoHeader c)
                          (first ++ [styleElement c])
                   else first ++ [styleElement c])
                  = first ++ [styleElement c]).
  { destruct (nonempty (Loader.logo c)) eqn:Hl; [| reflexivity].
    apply (first_found_stable (injectLogoIntoHeader c)
             (has_descendant [class_is logo_class])
             injectLogoIntoHeader_extends
             injectLogoIntoHeader_keeps
             (fun sel n => injectLogoIntoHeader_checked sel n Hl)
             (has_descendant_extends unsearched [class_is logo_class])
             injectLogoIntoHeader_stops
             headerSelectors headerSelectors_searched
             (root ++ [styleElement c])).
    apply (extends_all_trans _ first); [| exact Hsnoc].
    subst first. unfold injectIntoShadowDOM. cbv zeta. rewrite Hl.
    destruct (nonempty (Loader.footer c)); [| apply extends_all_refl].
    apply first_found_extends. intros n. apply injectFooter_extends, Hf. }
  rewrite Hlogo.
  destruct (nonempty (Loader.footer c)) eqn:Hfooter; [| reflexivity].
  apply (first_found_stable (injectFooter parse_html c)
           (has_descendant [class_is footer_class])
           (fun n => injectFooter_extends n Hf)
           injectFooter_keeps
           (fun sel n => injectFooter_checked sel n Hfooter)
           (has_descendant_extends unsearched [class_is footer_class])
           injectFooter_stops
           containerSelectors containerSelectors_searched
           (if nonempty (Loader.logo c)
            then first_found headerSelectors (injectLogoIntoHeader c)
                   (root ++ [styleElement c])
            else root ++ [styleElement c])).
  replace (first_found containerSelectors (injectFooter parse_html c) _)
    with first; [exact Hsnoc |].
  subst first. unfold injectIntoShadowDOM. cbv zeta. rewrite Hfooter. reflexivity.
Qed.

Lemma injectLogoIntoHeader_twice n :
  injectLogoIntoHeader c (injectLogoIntoHeader c n) = injectLogoIntoHeader c n.
Proof.
  destruct (nonempty (Loader.logo c)) eqn:Hl.
  - destruct (has_descendant [class_is logo_class] n) eqn:Hg.
    + rewrite (injectLogoIntoHeader_stops n Hg).
      apply injectLogoIntoHeader_stops, Hg.
    + destruct n as [tag cls attrs ch | data].
      * apply injectLogoIntoHeader_stops.
        unfold injectLogoIntoHeader. rewrite Hl, Hg. cbn [negb orb].
        unfold has_descendant. cbn [children_of find_first]. unfold logoImg.
        rewrite find_in_element, logo_class_is. reflexivity.
      * unfold injectLogoIntoHeader. rewrite Hl, Hg. reflexivity.
  - unfold injectLogoIntoHeader. rewrite Hl. reflexivity.
Qed.

Lemma injectFooter_twice n :
  injectFooter parse_html c (injectFooter parse_html c n)
  = injectFooter parse_html c n.
Proof.
  destruct (nonempty (Loader.footer c)) eqn:Hfooter.
  - destruct (has_descendant [class_is footer_class] n) eqn:Hg.
    + rewrite (injectFooter_stops n Hg). apply injectFooter_stops, Hg.
    + destruct n as [tag cls attrs ch | data].
      * apply injectFooter_stops.
        unfold injectFooter. rewrite Hfooter, Hg. cbn [negb orb].
        unfold has_descendant. cbn [children_of].
        destruct (find_first (matches_any [class_is footer_class])
                    (ch ++ [footerDiv parse_html c])) eqn:Hfind; [reflexivity |].
        exfalso. revert Hfind. apply find_first_snoc_found.
        unfold footerDiv. rewrite find_in_element, footer_class_is. discriminate.
      * unfold injectFooter. rewrite Hfooter, Hg. reflexivity.
  - unfold injectFooter. rewrite Hfooter. reflexivity.
Qed.

Lemma light_selectors_searched :
  incl [class_contains (lit "header"); class_contains (lit "Header")] searched.
Proof. intros sel [<- | [<- | []]]; [left | right; left]; reflexivity. Qed.

Lemma light_footer_step tag cls attrs ch :
  footer_unsearched parse_html c ->
  exists ch',
    (if nonempty (Loader.footer c)
     then injectFooter parse_html c (Element tag cls attrs ch)
     else Element tag cls attrs ch) = Element tag cls attrs ch'
    /\ extends_all unsearched ch ch'
    /\ (if nonempty (Loader.footer c)
        then injectFooter parse_html c (Element tag cls attrs ch')
        else Element tag cls attrs ch') = Element tag cls attrs ch'.
Proof.
  intros Hf. destruct (nonempty (Loader.footer c)).
  - pose proof (injectFooter_extends (Element tag cls attrs ch) Hf) as He.
    inversion He as [| tag' cls' attrs' ch0 ch' Hch Heq1 Heq2]; subst.
    exists ch'. split; [reflexivity |]. split; [exact Hch |].
    rewrite Heq2. apply injectFooter_twice.
  - exists ch. split; [reflexivity |]. split; [apply extends_all_refl | reflexivity].
Qed.

Lemma injectIntoLightDOM_twice widget :
  footer_unsearched parse_html c ->
  injectIntoLightDOM parse_html c (injectIntoLightDOM parse_html c widget)
  = injectIntoLightDOM parse_html c widget.
Proof.
  intros Hf. destruct widget as [tag cls attrs ch | data].
  2: { unfold injectIntoLightDOM, injectFooter. cbv zeta.
       destruct (nonempty (Loader.logo c)), (nonempty (Loader.footer c));
         reflexivity. }
  unfold injectIntoLightDOM. cbv zeta.
  set (p := matches_any [class_contains (lit "header"); class_contains (lit "Header")]).
  assert (Hown : forall tag cls attrs ch ch',
             p (Element tag cls attrs ch) = p (Element tag cls attrs ch'))
    by reflexivity.
  assert (Hunfound : forall n, unsearched n = true -> find_in p n = None).
  { intros n. apply unsearched_unfound, light_selectors_searched. }
  destruct (nonempty (Loader.logo c)) eqn:Hl.
  - assert (Hkeeps : forall n, p n = true -> p (injectLogoIntoHeader c n) = true).
    { intros n Hn. apply existsb_exists in Hn. destruct Hn as (sel & Hin & Hsel).
      apply existsb_exists. exists sel. split; [exact Hin |].
      apply injectLogoIntoHeader_keeps, Hsel. }
    assert (Hchecked : forall n, p n = true ->
              has_descendant [class_is logo_class] (injectLogoIntoHeader c n) = true).
    { intros n Hn. apply existsb_exists in Hn. destruct Hn as (sel & Hin & Hsel).
      apply (injectLogoIntoHeader_checked sel n Hl Hsel). }
    destruct (update_first p (injectLogoIntoHeader c) ch) as [ch1 |] eqn:Hu.
    + destruct (light_footer_step tag cls attrs ch1 Hf) as (ch' & H1 & He & H2).
      rewrite H1.
      rewrite (update_first_stable (injectLogoIntoHeader c)
                 (has_descendant [class_is logo_class])
                 (has_descendant_extends unsearched [class_is logo_class])
                 injectLogoIntoHeader_stops
                 p ch ch1 ch' Hown Hunfound Hkeeps Hchecked Hu He).
      exact H2.
    + destruct (light_footer_step tag cls attrs ch Hf) as (ch' & H1 & He & H2).
      rewrite H1.
      rewrite (update_first_none_stable (injectLogoIntoHeader c)
                 p ch ch' Hown Hunfound Hu He).
      exact H2.
  - destruct (light_footer_step tag cls attrs ch Hf) as (ch' & H1 & He & H2).
    rewrite H1. exact H2.
Qed.

End Injected.

End InjectFacts.

(** X18. Each of [injectLogoIntoHeader] and [injectFooter] puts its element in at
    most once.  Applied to an element that it has already been applied to,
    either function finds its own element among the descendants and leaves
    the element as it is, whatever the configuration and whatever the host
    makes of the footer's markup. *)
Theorem logo_and_footer_put_in_once
  (parse_html : jsstring -> list Inject.Node) (c : Loader.Config)
  (n : Inject.Node) :
  Inject.injectLogoIntoHeader c (Inject.injectLogoIntoHeader c n)
  = Inject.injectLogoIntoHeader c n
  /\ Inject.injectFooter parse_html c (Inject.injectFooter parse_html c n)
     = Inject.injectFooter parse_html c n.
Proof.
  split; [apply InjectFacts.injectLogoIntoHeader_twice
         | apply InjectFacts.injectFooter_twice].
Qed.

(** X19. Where the observer of [injectCustomElements] has injected into the
    widget's shadow root, the timer that runs [tryInjectCustomElements] two
    seconds later injects into the same root once more, and that second run
    leaves one more style element at the end of the root and nothing else:
    no second logo and no second footer.  The footer's markup, where the
    host parses it, is taken to hold no element whose class the loader
    searches for. *)
Theorem timer_adds_only_a_style
  (parse_html : jsstring -> list Inject.Node) (c : Loader.Config)
  (widget : Inject.Node) (root : list Inject.Node) :
  Inject.footer_unsearched parse_html c ->
  let found := Some (Inject.mkFound widget (Some root)) in
  let first := Inject.injectIntoShadowDOM parse_html c root in
  Inject.observer_callback parse_html c found
  = (Some (Inject.mkFound widget (Some first)), true)
  /\ Inject.tryInjectCustomElements parse_html c
       (fst (Inject.observer_callback parse_html c found))
     = (Some (Inject.mkFound widget (Some (first ++ [Inject.styleElement c]))),
        false).
Proof.
  intros Hf found first. split; [reflexivity |].
  cbn [Inject.observer_callback Inject.tryInjectCustomElements found fst
       Inject.shadowRoot Inject.element].
  rewrite (InjectFacts.injectIntoShadowDOM_twice parse_html c root Hf).
  reflexivity.
Qed.

(** X20. For a widget without a shadow root the injection settles after one run.
    Applied to the widget it has already been applied to,
    [injectIntoLightDOM] finds the same header, which now holds the logo,
    and finds the footer under the widget, and changes nothing.  The
    footer's markup, where the host parses it, is taken to hold no element
    whose class the loader searches for. *)
Theorem light_injection_settles
  (parse_html : jsstring -> list Inject.Node) (c : Loader.Config)
  (widget : Inject.Node) :
  Inject.footer_unsearched parse_html c ->
  Inject.injectIntoLightDOM parse_html c
    (Inject.injectIntoLightDOM parse_html c widget)
  = Inject.injectIntoLightDOM parse_html c widget.
Proof. apply InjectFacts.injectIntoLightDOM_twice. Qed.

(** * The theorems at concrete inputs *)

#[local] Existing Instance example_host.

(** ** The parser on sample texts *)

Example parse_delta :
  JSON_parse (payload "{'delta':'Hel'}")
  = Some (JObj [(lit "delta", JStr (lit "Hel"))]).
Proof. vm_compute. reflexivity. Qed.

Example parse_nested :
  JSON_parse (payload " { 'a' : [1, -2.5e+3, true, null, {}, []], 'bA\n' : 'x' } ")
  = Some (JObj [(lit "a", JArr [JNum (lit "1"); JNum (lit "-2.5e+3"); JBool true;
                                 JNull; JObj []; JArr []]);
                (lit "bA" ++ [10], JStr (lit "x"))]).
Proof. vm_compute. reflexivity. Qed.

Example parse_rejects :
  map JSON_parse
    [payload ""; payload "{"; payload "{'a':1,}"; payload "[1,]"; payload "01";
     payload "1."; payload "tru"; payload "{'a' 1}"; payload "'a"; payload "{} {}";
     payload "'\x'"; payload "nul"; payload "{'delta':'Hel'"; payload "-";
     payload "[1 2]"; payload "{'delta':'Hel'}}"; payload "el'}"; [34; 10; 34]]
  = repeat None 18.
Proof. vm_compute. reflexivity. Qed.

Example parse_scalars :
  map JSON_parse
    [payload "12"; payload " 'a\'b' "; payload "false"; payload "0"; payload "[]"]
  = [Some (JNum (lit "12")); Some (JStr (payload "a'b")); Some (JBool false);
     Some (JNum (lit "0")); Some (JArr [])].
Proof. vm_compute. reflexivity. Qed.

Example parse_escapes :
  JSON_parse (payload "{'k':'A\u00e9\t','k':[0.5E-2]}")
  = Some (JObj [(lit "k", JStr [65; 233; 9]); (lit "k", JArr [JNum (lit "0.5E-2")])]).
Proof. vm_compute. reflexivity. Qed.

Example last_member_wins :
  get_member (lit "k") [(lit "k", JNull); (lit "j", JBool true); (lit "k", JBool false)]
  = Some (JBool false).
Proof. vm_compute. reflexivity. Qed.

Example lines_of_chunk :
  chunk_lines (lit "data: a" ++ [10; 10; 32; 13; 10] ++ lit "data: b")
  = [lit "data: a"; lit "data: b"].
Proof. vm_compute. reflexivity. Qed.

(** ** The stream of the three frames *)

Example hello_stream :
  snd (read_stream demo_widget hello_chunks)
  = mkStream (lit "Hello") (JStr (lit "c1")).
Proof. vm_compute. reflexivity. Qed.

Example hello_stream_in_one_chunk :
  snd (read_stream demo_widget [concat hello_chunks])
  = mkStream (lit "Hello") (JStr (lit "c1")).
Proof. vm_compute. reflexivity. Qed.



(** ** A malformed frame between two valid ones *)

Example malformed_between :
  snd (read_stream demo_widget
         [payload "data: {'delta':'Hel'}" ++ [10]
          ++ payload "data: {'delta':" ++ [10]
          ++ payload "data: {'delta':'lo'}"])
  = mkStream (lit "Hello") JNull.
Proof. vm_compute. reflexivity. Qed.

Lemma malformed_frame_skipped_hello :
  sendMessage demo_widget
    (http_ok [(payload "data: {'delta':'Hel'}" ++ [10])
              ++ payload "data: {'delta':"
              ++ ([10] ++ payload "data: {'delta':'lo'}")] true)
  = sendMessage demo_widget
      (http_ok [(payload "data: {'delta':'Hel'}" ++ [10])
                ++ ([10] ++ payload "data: {'delta':'lo'}")] true).
Proof.
  apply (malformed_frame_skipped demo_widget (demo_widget, stream_start) [] []
           (payload "data: {'delta':'Hel'}" ++ [10])
           (payload "data: {'delta':")
           ([10] ++ payload "data: {'delta':'lo'}") true).
  - right. exists (payload "data: {'delta':'Hel'}"). reflexivity.
  - right. exists (payload "data: {'delta':'lo'}"). reflexivity.
  - vm_compute. intros Hin. repeat (apply elem_of_cons in Hin as [Hin | Hin]; [discriminate |]).
    apply elem_of_nil in Hin. exact Hin.
  - vm_compute. reflexivity.
  - vm_compute. reflexivity.
Defined.

(** ** Missing identifiers *)

Example loader_with_identifiers :
  Loader.init (<["data-public-key" := lit "pk_1"]>
                 (<["data-assistant-id" := lit "asst_1"]>
                    (<["data-logo" := lit "logo.png"]> ∅))) true
  = [Loader.injectStyles; Loader.loadVapiScript;
     Loader.appendWidget
       (Loader.createVapiWidget
          (Loader.read_config
             (<["data-public-key" := lit "pk_1"]>
                (<["data-assistant-id" := lit "asst_1"]>
                   (<["data-logo" := lit "logo.png"]> ∅)))));
     Loader.observeForInjection;
     Loader.console_log "VAPI Custom Widget initialized"].
Proof. vm_compute. reflexivity. Qed.

Lemma missing_identifier_aborts_demo :
  (exists what, Loader.init (<["data-public-key" := lit "pk_1"]> ∅) true
                = [Loader.console_error what])
  /\ filter (fun e => Loader.creates_or_fetches e = true)
            (Loader.init (<["data-public-key" := lit "pk_1"]> ∅) true) = []
  /\ fst (sendMessage unconfigured_widget fetch_rejects) = unconfigured_widget
  /\ requests (snd (sendMessage unconfigured_widget fetch_rejects)) = []
  /\ events (snd (sendMessage unconfigured_widget fetch_rejects)) = [].
Proof.
  apply (missing_identifier_aborts (<["data-public-key" := lit "pk_1"]> ∅) true
           unconfigured_widget fetch_rejects).
  - right. left. vm_compute. reflexivity.
  - left. left. vm_compute. reflexivity.
Defined.

Example unconfigured_send_logs :
  sendMessage unconfigured_widget fetch_rejects
  = (unconfigured_widget, [console_error "VAPI Widget: public-key is required"]).
Proof. vm_compute. reflexivity. Qed.

(** ** Consent *)

Lemma giveConsent_persists_demo :
  let '(w', st', effects) := giveConsent gated_widget (storage_items ∅ false) in
  consentGiven w' = true
  /\ st' = storage_items
             (<[localStorageKey (getConfig gated_widget) := lit "true"]> ∅) false
  /\ effects = []
  /\ getItem st' (localStorageKey (getConfig gated_widget)) = Some (Some (lit "true"))
  /\ consentGiven (checkConsent gated_widget st') = true.
Proof.
  exact (giveConsent_persists gated_widget gated_widget (storage_items ∅ false) eq_refl).
Defined.

Example consent_key_default :
  localStorageKey (getConfig gated_widget) = lit "vapi_widget_consent".
Proof. vm_compute. reflexivity. Qed.

Example consent_not_saved :
  giveConsent gated_widget (storage_items ∅ true)
  = (render (set_consentGiven true gated_widget), storage_items ∅ true,
     [console_warn "Could not save consent to localStorage"]).
Proof. reflexivity. Qed.

Example consent_read_fails :
  consentGiven
    (connectedCallback (new_widget (<["require-consent" := lit ""]> demo_attrs))
       storage_unavailable) = false.
Proof. vm_compute. reflexivity. Qed.

Example consent_other_value :
  consentGiven
    (connectedCallback (new_widget (<["require-consent" := lit ""]> demo_attrs))
       (storage_items (<[lit "vapi_widget_consent" := lit "yes"]> ∅) false)) = false.
Proof. vm_compute. reflexivity. Qed.

(** The first render comes before the consent check: a widget that finds
    its grant in storage still shows the consent screen until it is drawn
    again. *)
Example first_render_precedes_check :
  let w := connectedCallback
             (new_widget (<["require-consent" := lit ""]> demo_attrs))
             (storage_items (<[lit "vapi_widget_consent" := lit "true"]> ∅) false) in
  consentGiven w = true /\ chat_input w = None
  /\ chat_input (fst (toggleChat None w)) = Some [].
Proof. vm_compute. repeat split. Qed.

(** ** Blank input and a send in flight *)

Lemma blank_send_ignored_demo :
  sendMessage_start (set_input [32; 9; 10; 160] demo_widget)
  = send_returns (set_input [32; 9; 10; 160] demo_widget) []
  /\ sendMessage (set_input [32; 9; 10; 160] demo_widget) (http_ok hello_chunks true)
     = (set_input [32; 9; 10; 160] demo_widget, []).
Proof.
  apply (blank_or_loading_send_ignored (set_input [32; 9; 10; 160] demo_widget)
           (http_ok hello_chunks true)).
  left. exists [32; 9; 10; 160]. split; vm_compute; reflexivity.
Defined.

Example second_send_in_flight :
  match sendMessage_start demo_widget with
  | send_awaits w' _ =>
      sendMessage (set_input (lit "again") w') (http_ok hello_chunks true)
      = (set_input (lit "again") w', [])
  | send_returns _ _ => False
  end.
Proof. vm_compute. reflexivity. Qed.

(** ** Toggles *)



Example toggle_events_demo :
  events (snd (toggle_all demo_widget [None; Some false; Some true; None]))
  = [chat_open; chat_close; chat_open; chat_close].
Proof. vm_compute. reflexivity. Qed.

(** ** The consent screen *)


Example consent_then_send :
  let '(w', st', effects) :=
    run_ops (gated_widget, storage_items ∅ false)
      [op_toggle None; op_consent; op_input (lit "Hi");
       op_send (http_ok hello_chunks true)] in
  events effects
  = [chat_open; message_event (mkMessage user (lit "Hi"));
     message_event (mkMessage assistant (lit "Hello"))]
  /\ getItem st' (lit "vapi_widget_consent") = Some (Some (lit "true")).
Proof. vm_compute. split; reflexivity. Qed.

(** ** Several ids in one stream *)

Lemma first_id_wins_demo :
  exists w' reply,
    callVapiAPI_response demo_widget
      (http_ok [payload "data: {'delta':'a','id':''}" ++ [10]
                ++ payload "data: {'id':'c1','delta':'b'}" ++ [10];
                payload "data: {'id':'c2'}" ++ [10] ++ payload "data: {'id':'c3'}"]
         true)
    = (w', inr (mkStream reply (JStr (lit "c1")))).
Proof.
  apply (first_id_wins demo_widget _
           [payload "data: {'delta':'a','id':''}"]
           [payload "data: {'id':'c2'}"; payload "data: {'id':'c3'}"]
           (payload "data: {'id':'c1','delta':'b'}") (lit "c1")
           [(lit "id", JStr (lit "c1")); (lit "delta", JStr (lit "b"))]).
  - vm_compute. reflexivity.
  - repeat constructor.
  - vm_compute. reflexivity.
  - vm_compute. reflexivity.
  - discriminate.
Defined.

Example later_ids_ignored :
  snd (read_stream demo_widget
         [payload "data: {'id':'c1'}" ++ [10] ++ payload "data: {'id':'c2'}"])
  = mkStream [] (JStr (lit "c1")).
Proof. vm_compute. reflexivity. Qed.

(** ** A frame cut in two *)

Lemma split_frame_lost_demo :
  read_stream demo_widget
    ([] ++ ([] ++ payload "data: {'delta':'H")
        :: (payload "el'}" ++ [10] ++ payload "data: {'delta':'lo'}") :: [])
  = read_stream demo_widget
      ([] ++ [] :: ([10] ++ payload "data: {'delta':'lo'}") :: []).
Proof.
  apply (split_frame_lost demo_widget (demo_widget, stream_start) [] [] []
           (payload "data: {'delta':'H") (payload "el'}")
           ([10] ++ payload "data: {'delta':'lo'}")
           (payload "{'delta':'Hel'}")
           (JObj [(lit "delta", JStr (lit "Hel"))]) true).
  - left. reflexivity.
  - right. eexists. reflexivity.
  - discriminate.
  - discriminate.
  - vm_compute. reflexivity.
  - vm_compute. reflexivity.
  - vm_compute. reflexivity.
  - vm_compute. intros Hin.
    repeat (apply elem_of_cons in Hin as [Hin | Hin]; [discriminate |]).
    apply elem_of_nil in Hin. exact Hin.
Defined.

Example split_frame_content :
  snd (read_stream demo_widget
         [payload "data: {'delta':'H";
          payload "el'}" ++ [10] ++ payload "data: {'delta':'lo'}"])
  = mkStream (lit "lo") JNull
  /\ snd (read_stream demo_widget
            [payload "data: {'delta':'Hel'}" ++ [10] ++ payload "data: {'delta':'lo'}"])
     = mkStream (lit "Hello") JNull.
Proof. vm_compute. split; reflexivity. Qed.

(** With white space after the closing brace, a cut inside that white space
    leaves the whole frame in the first chunk, and nothing is lost. *)
Example cut_after_the_frame :
  snd (read_stream demo_widget
         [payload "data: {'delta':'Hel'}"; [13; 10] ++ payload "data: {'delta':'lo'}"])
  = mkStream (lit "Hello") JNull.
Proof. vm_compute. reflexivity. Qed.

(** ** A send that fails *)

Lemma failed_send_reports_demo :
  messages (fst (sendMessage demo_widget (http_error 500)))
  = [mkMessage user (lit "Hi");
     mkMessage assistant (lit "Sorry, I encountered an error. Please try again.")]
  /\ events (snd (sendMessage demo_widget (http_error 500)))
     = [message_event (mkMessage user (lit "Hi")); error_event (ApiError 500)].
Proof.
  pose proof (failed_send_reports demo_widget (lit "Hi") (lit "pk_1") (lit "asst_1")
                (http_error 500) (ApiError 500)
                eq_refl eq_refl eq_refl eq_refl eq_refl eq_refl) as H.
  cbv zeta in H. destruct H as (Hm & He & _).
  split; [rewrite Hm | rewrite He]; vm_compute; reflexivity.
Defined.

Example read_rejected_drops_the_stream :
  messages (fst (sendMessage demo_widget (http_ok hello_chunks false)))
  = [mkMessage user (lit "Hi");
     mkMessage assistant (lit "Sorry, I encountered an error. Please try again.")].
Proof. vm_compute. reflexivity. Qed.

(** ** A run of calls *)

Lemma run_never_undoes_demo :
  isLoading
    (fst (fst (run_ops (demo_widget, storage_unavailable)
                 [op_send (http_ok hello_chunks true); op_toggle None;
                  op_input (lit "again"); op_send fetch_rejects;
                  op_removeAttribute "public-key"])))
  = false.
Proof.
  pose proof (run_never_undoes demo_widget storage_unavailable
                [op_send (http_ok hello_chunks true); op_toggle None;
                 op_input (lit "again"); op_send fetch_rejects;
                 op_removeAttribute "public-key"]) as H.
  destruct (run_ops _ _) as [[w' st'] effects].
  destruct H as (_ & _ & _ & H). apply H. reflexivity.
Defined.

Example run_demo_messages :
  map role
    (messages
       (fst (fst (run_ops (demo_widget, storage_unavailable)
                    [op_send (http_ok hello_chunks true); op_toggle None;
                     op_input (lit "again"); op_send fetch_rejects]))))
  = [user; assistant; user; assistant].
Proof. vm_compute. reflexivity. Qed.

(** ** The stream *)

Lemma stream_only_grows_demo :
  chatId (snd (fold_left process_chunk hello_chunks
                 (demo_widget, mkStream (lit "He") (JStr (lit "c0")))))
  = JStr (lit "c0").
Proof.
  pose proof (stream_only_grows (demo_widget, mkStream (lit "He") (JStr (lit "c0")))
                hello_chunks) as H.
  cbv zeta in H. destruct H as (_ & H & _). apply H. reflexivity.
Defined.

Lemma crlf_demo_lines :
  Forall (fun l : jsstring => 10 ∉ l)
    [payload "data: {'delta':'Hel'}"; payload "data: {'delta':'lo'}"].
Proof.
  repeat constructor; vm_compute; intros Hin;
    repeat (apply elem_of_cons in Hin as [Hin | Hin]; [discriminate |]);
    apply elem_of_nil in Hin; exact Hin.
Defined.

Lemma crlf_lines_read_alike_demo :
  sendMessage demo_widget
    (http_ok [join_lines [13; 10]
                [payload "data: {'delta':'Hel'}"; payload "data: {'delta':'lo'}"]]
       true)
  = sendMessage demo_widget
      (http_ok [join_lines [10]
                  [payload "data: {'delta':'Hel'}"; payload "data: {'delta':'lo'}"]]
         true).
Proof.
  apply (crlf_lines_read_alike demo_widget (demo_widget, stream_start)
           [payload "data: {'delta':'Hel'}"; payload "data: {'delta':'lo'}"] true
           crlf_demo_lines).
Defined.

Example crlf_stream :
  snd (read_stream demo_widget
         [payload "data: {'delta':'Hel'}" ++ [13; 10]
          ++ payload "data: {'delta':'lo'}" ++ [13; 10]])
  = mkStream (lit "Hello") JNull.
Proof. vm_compute. reflexivity. Qed.

(** ** The tree during a send *)



(** ** Clicks *)


Example clicks_demo_events :
  events (snd (on_events (demo_widget, storage_unavailable)
                 [(click_toggle, fetch_rejects); (click_close, fetch_rejects);
                  (click_toggle, fetch_rejects); (click_toggle, fetch_rejects)]))
  = [chat_open; chat_close; chat_open; chat_close].
Proof. vm_compute. reflexivity. Qed.

(** ** Consent across a reload *)


(** ** Attribute changes *)


(** ** Escaped text *)

Lemma escapeHtml_safe_demo :
  escapeHtml (lit "Hello") = lit "Hello"
  /\ escapeHtml (lit "a<b" ++ lit "Hello") = lit "a&lt;b" ++ lit "Hello".
Proof.
  destruct (escapeHtml_safe (lit "Hello") (lit "a<b")) as (_ & H1 & _ & _).
  destruct (escapeHtml_safe (lit "a<b") (lit "Hello")) as (_ & _ & _ & H2).
  split.
  - apply H1. vm_compute. repeat constructor; discriminate.
  - rewrite H2. vm_compute. reflexivity.
Defined.

(** ** The element that the loader creates *)

Lemma created_element_attributes_demo :
  let created := Loader.createVapiWidget (Loader.read_config loader_attrs) in
  created !! "public-key" = Some (lit "pk_1")
  /\ created !! "mode" = Some (lit "chat")
  /\ created !! "logo" = None.
Proof.
  pose proof (created_element_attributes loader_attrs (lit "pk_1") (lit "asst_1")
                eq_refl eq_refl) as H.
  cbv zeta in H. destruct H as (_ & Hk & _ & Hm & _ & Hall).
  cbv zeta. split; [exact Hk |]. split; [rewrite Hm; reflexivity |].
  destruct (Loader.createVapiWidget (Loader.read_config loader_attrs) !! "logo")
    as [v |] eqn:Hv; [| reflexivity].
  destruct (Hall "logo"%string v Hv) as [_ Hin]. exfalso.
  vm_compute in Hin.
  repeat (apply elem_of_cons in Hin as [Hin | Hin]; [discriminate |]).
  apply elem_of_nil in Hin. exact Hin.
Defined.

Lemma created_element_read_back_demo :
  let config :=
    getConfig (new_widget (Loader.createVapiWidget (Loader.read_config loader_attrs))) in
  publicKey config = Some (lit "pk_1")
  /\ assistantId config = Some (lit "asst_1")
  /\ logo config = None /\ footer config = None.
Proof.
  pose proof (created_element_read_back loader_attrs (lit "pk_1") (lit "asst_1")
                eq_refl eq_refl) as H.
  cbv zeta in H.
  destruct H as (Hk & Ha & _ & _ & _ & _ & _ & _ & Hl & Hf & _).
  cbv zeta. repeat split; assumption.
Defined.

(** ** The injection into the vendor widget *)

Example shadow_injection :
  let c := Loader.read_config loader_attrs in
  Inject.injectIntoShadowDOM parsed_footer c vendor_root
  = [Inject.Element "div" (lit "chat-window") []
       [Inject.Element "div" (lit "chat-header") []
          [Inject.logoImg c; Inject.Text (lit "Chat")];
        Inject.Element "div" (lit "messages") [] [];
        Inject.footerDiv parsed_footer c];
     Inject.styleElement c].
Proof. vm_compute. reflexivity. Qed.

Example light_injection :
  let c := Loader.read_config loader_attrs in
  Inject.injectIntoLightDOM parsed_footer c vendor_widget
  = Inject.Element "vapi-widget" [] []
      [Inject.Element "div" (lit "chat-window") []
         [Inject.Element "div" (lit "chat-header") []
            [Inject.logoImg c; Inject.Text (lit "Chat")];
          Inject.Element "div" (lit "messages") [] []];
       Inject.footerDiv parsed_footer c].
Proof. vm_compute. reflexivity. Qed.

Lemma timer_adds_only_a_style_demo :
  let c := Loader.read_config loader_attrs in
  Inject.tryInjectCustomElements parsed_footer c
    (fst (Inject.observer_callback parsed_footer c
            (Some (Inject.mkFound vendor_widget (Some vendor_root)))))
  = (Some (Inject.mkFound vendor_widget
             (Some (Inject.injectIntoShadowDOM parsed_footer c vendor_root
                    ++ [Inject.styleElement c]))),
     false).
Proof.
  pose proof (timer_adds_only_a_style parsed_footer (Loader.read_config loader_attrs)
                vendor_widget vendor_root (fun _ => eq_refl)) as H.
  cbv zeta in H. destruct H as [_ H]. exact H.
Defined.

Lemma light_injection_settles_demo :
  let c := Loader.read_config loader_attrs in
  Inject.injectIntoLightDOM parsed_footer c
    (Inject.injectIntoLightDOM parsed_footer c vendor_widget)
  = Inject.injectIntoLightDOM parsed_footer c vendor_widget.
Proof.
  exact (light_injection_settles parsed_footer (Loader.read_config loader_attrs)
           vendor_widget (fun _ => eq_refl)).
Defined.

(** Where the host finds a header in the footer's markup and the widget has
    none of its own, the second run puts the logo into the footer. *)
Example footer_with_header_gets_logo :
  let c := Loader.read_config loader_attrs in
  let root := [Inject.Element "div" (lit "chat-window") [] []] in
  Inject.injectIntoShadowDOM parsed_footer_with_header c
    (Inject.injectIntoShadowDOM parsed_footer_with_header c root)
  = [Inject.Element "div" (lit "chat-window") []
       [Inject.Element "div" Inject.footer_class
          [("style"%string, Inject.footer_css c)]
          [Inject.Element "div" (lit "header") []
             [Inject.logoImg c; Inject.Text (lit "Powered by")]]];
     Inject.styleElement c; Inject.styleElement c].
Proof. vm_compute. reflexivity. Qed.
